(** * Dynamic universal functions: specialization table and generic reduce

    A shallow embedding of [numba/np/ufunc/dufunc.py].

    - Python integers are unbounded, so tuple entries, strides, offsets and
      array elements are [Z]; loop counters that start at 0 and only grow
      are [nat].
    - Code that can raise returns a [result]; the exception is a value of
      [exn].
    - An N-dimensional array is its shape, its element type and its logical
      contents in C (row-major) order.  Arrays made by [np.empty] and
      [np.full] are C-contiguous, so for them the logical contents are the
      buffer and [ravel()] is a view of it.
    - The implementations of [reduce] are compiled code, which checks no
      bounds: a read at an index outside the extents of an array returns
      what lies at the position it addresses, and what that is is a
      parameter of the model ([NdArray.Memory]). *)

From Stdlib Require Import String Ascii ZArith List Bool Lia.
From Stdlib Require Import Sorted Permutation.
Import ListNotations.
Open Scope Z_scope.

(** ** Exceptions and the error monad *)

Inductive exn : Type :=
| NumbaTypeError (msg : string)
| TypeError (msg : string)
| ValueError (msg : string)
| RuntimeError (msg : string)
| NotImplementedError (msg : string)
| IndexError
| ZeroDivisionError
| AssertionError
| TypingError
| RecursionError.

Inductive result (A : Type) : Type :=
| Ok (a : A)
| Raise (e : exn).

Arguments Ok {A} a.
Arguments Raise {A} e.

Definition bind {A B : Type} (m : result A) (k : A -> result B) : result B :=
  match m with
  | Ok a => k a
  | Raise e => Raise e
  end.

Notation "x <- m ;; k" := (bind m (fun x => k))
  (at level 61, m at next level, right associativity).

Definition of_option {A : Type} (o : option A) (e : exn) : result A :=
  match o with
  | Some a => Ok a
  | None => Raise e
  end.

(** ** Tuples of integers *)

Module Tuple.

(** Modelled from the spec: [numba.cpython.unsafe.tuple.tuple_setitem] is not
    part of the source file.  It returns a copy of the tuple with the item at
    [idx] replaced by [val] and does no bounds checking; every use below is in
    range, and out of range the tuple is returned unchanged. *)
Fixpoint tuple_setitem (tup : list Z) (idx : nat) (val : Z) : list Z :=
  match tup, idx with
  | [], _ => []
  | _ :: t, O => val :: t
  | x :: t, S i => x :: tuple_setitem t i val
  end.

(** [(0,) * n]; a negative [n] gives the empty tuple. *)
Definition zeros (n : Z) : list Z := repeat 0 (Z.to_nat n).

(** The body of [for j, e in enumerate(tup)] in [tuple_slice], from position
    [j] on, with the tuple built so far in [s] and its write cursor [i]. *)
Fixpoint tuple_slice_loop (tup : list Z) (j : nat) (pos : Z)
                          (s : list Z) (i : nat) : list Z :=
  match tup with
  | [] => s
  | e :: tup' =>
      if Z.of_nat j =? pos
      then tuple_slice_loop tup' (S j) pos s i
      else tuple_slice_loop tup' (S j) pos (tuple_setitem s i e) (S i)
  end.

(** [tuple_slice]; [ndim] is the rank of the array being reduced, from which
    the closure takes [tup_init_m1 = (0,) * (ndim - 1)]. *)
Definition tuple_slice (ndim : Z) (tup : list Z) (pos : Z) : list Z :=
  tuple_slice_loop tup 0 pos (zeros (ndim - 1)) 0.

(** The [while j < sz] loop of [tuple_slice_append]; [fuel] is [sz - j]. *)
Fixpoint tuple_slice_append_loop (fuel : nat) (tup : list Z) (pos val : Z)
                                 (s : list Z) (i j : nat) : result (list Z) :=
  match fuel with
  | O => Ok s
  | S fuel' =>
      if Z.of_nat j =? pos
      then tuple_slice_append_loop fuel' tup pos val
             (tuple_setitem s j val) i (S j)
      else
        e <- of_option (nth_error tup i) IndexError ;;
        tuple_slice_append_loop fuel' tup pos val
          (tuple_setitem s j e) (S i) (S j)
  end.

(** [tuple_slice_append], with [tup_init = (0,) * ndim]. *)
Definition tuple_slice_append (ndim : Z) (tup : list Z) (pos val : Z)
  : result (list Z) :=
  let s := zeros ndim in
  tuple_slice_append_loop (length s) tup pos val s 0 0.

(** The [for i in range(len(tup))] loop of [find_min] over the part of the
    tuple that is left, [i] being the position of its head. *)
Fixpoint find_min_loop (rest : list Z) (i : nat) (idx : nat) (e : Z)
  : nat * Z :=
  match rest with
  | [] => (idx, e)
  | x :: rest' =>
      if x <? e
      then find_min_loop rest' (S i) i x
      else find_min_loop rest' (S i) idx e
  end.

Definition find_min (tup : list Z) : result (nat * Z) :=
  e <- of_option (nth_error tup 0) IndexError ;;
  Ok (find_min_loop tup 0 0%nat e).

(** The [while i < len_idx] loop of [compute_flat_idx] over the coordinates
    that are left, [i] being the position of the first of them. *)
Fixpoint compute_flat_idx_loop (strides rest : list Z) (axis : Z)
                               (flat_idx : Z) (i j : nat) : result Z :=
  match rest with
  | [] => Ok flat_idx
  | idx_i :: rest' =>
      if negb (Z.of_nat i =? axis)
      then
        stride <- of_option (nth_error strides j) IndexError ;;
        compute_flat_idx_loop strides rest' axis
          (flat_idx + stride * idx_i) (S i) (S j)
      else compute_flat_idx_loop strides rest' axis flat_idx (S i) j
  end.

(** Python's [//] on integers: floor division, raising on a zero divisor. *)
Definition floordiv (a b : Z) : result Z :=
  if b =? 0 then Raise ZeroDivisionError else Ok (a / b).

Definition compute_flat_idx (strides : list Z) (itemsize : Z)
                            (idx : list Z) (axis : Z) : result Z :=
  flat_idx <- compute_flat_idx_loop strides idx axis 0 0 0 ;;
  floordiv flat_idx itemsize.

(** Two's complement wrap-around of a 64-bit integer ([intp]). *)
Definition wrap64 (z : Z) : Z := (z + 2 ^ 63) mod 2 ^ 64 - 2 ^ 63.

(** The loop of [compute_flat_idx] as it is compiled: the strides, the
    coordinates and [flat_idx] are 64-bit integers, so every product and sum
    wraps around. *)
Fixpoint compute_flat_idx_loop64 (strides rest : list Z) (axis : Z)
                                 (flat_idx : Z) (i j : nat) : result Z :=
  match rest with
  | [] => Ok flat_idx
  | idx_i :: rest' =>
      if negb (Z.of_nat i =? axis)
      then
        stride <- of_option (nth_error strides j) IndexError ;;
        compute_flat_idx_loop64 strides rest' axis
          (wrap64 (flat_idx + wrap64 (stride * idx_i))) (S i) (S j)
      else compute_flat_idx_loop64 strides rest' axis flat_idx (S i) j
  end.

Definition compute_flat_idx64 (strides : list Z) (itemsize : Z)
                              (idx : list Z) (axis : Z) : result Z :=
  flat_idx <- compute_flat_idx_loop64 strides idx axis 0 0 0 ;;
  q <- floordiv flat_idx itemsize ;;
  Ok (wrap64 q).

(** A value that a 64-bit integer holds. *)
Definition in_int64 (z : Z) : Prop := - 2 ^ 63 <= z < 2 ^ 63.

(** The flat-offset formula in the words of the specification: the sum, over
    every axis [a] but the reduced one, of [coordinate[a]] times the stride of
    the result at the corresponding position, divided by the element size. *)
Definition result_position (axis a : nat) : nat :=
  if (a <? axis)%nat then a else pred a.

Definition sumZ (l : list Z) : Z := fold_right Z.add 0 l.

Definition flat_offset_spec (strides : list Z) (itemsize : Z)
                            (idx : list Z) (axis : nat) : Z :=
  sumZ (map (fun a => nth a idx 0 * nth (result_position axis a) strides 0)
            (filter (fun a => negb (a =? axis)%nat) (seq 0 (length idx))))
  / itemsize.

End Tuple.

(** ** N-dimensional arrays *)

Module NdArray.

(** An element type: its size in bytes and the conversion a store into an
    array of that type applies. *)
Record dtype : Type := { itemsize : Z; cast : Z -> Z }.

Record ndarray : Type := { shape : list Z; elt : dtype; data : list Z }.

Definition ndim (a : ndarray) : Z := Z.of_nat (length (shape a)).

Definition prodZ (l : list Z) : Z := fold_right Z.mul 1 l.

(** Byte strides of a C-contiguous array, the innermost axis last. *)
Fixpoint c_strides (shp : list Z) (isz : Z) : list Z :=
  match shp with
  | [] => []
  | _ :: ds => prodZ ds * isz :: c_strides ds isz
  end.

(** [r.strides] for an array made by [np.empty] or [np.full]. *)
Definition strides (a : ndarray) : list Z :=
  c_strides (shape a) (itemsize (elt a)).

Definition np_full (shp : list Z) (fill_value : Z) (dt : dtype) : ndarray :=
  {| shape := shp; elt := dt;
     data := repeat (cast dt fill_value) (Z.to_nat (prodZ shp)) |}.

(** [np.empty] leaves the cells uninitialised; the model puts 0 in them. *)
Definition np_empty (shp : list Z) (dt : dtype) : ndarray :=
  {| shape := shp; elt := dt; data := repeat 0 (Z.to_nat (prodZ shp)) |}.

(** [range(n)]. *)
Definition zrange (n : Z) : list Z := map Z.of_nat (seq 0 (Z.to_nat n)).

(** The index tuples of an array of the given shape, in C order. *)
Fixpoint ndindex (shp : list Z) : list (list Z) :=
  match shp with
  | [] => [[]]
  | d :: ds => flat_map (fun i => map (cons i) (ndindex ds)) (zrange d)
  end.

(** [np.ndenumerate(a)]: every index tuple with the element there. *)
Definition ndenumerate (a : ndarray) : list (list Z * Z) :=
  combine (ndindex (shape a)) (data a).

(** One component of an index against an extent [d]: a negative index counts
    from the end, and what is still outside [0, d) raises. *)
Definition norm_index (i d : Z) : result Z :=
  let i' := if i <? 0 then i + d else i in
  if (0 <=? i') && (i' <? d) then Ok i' else Raise IndexError.

(** Position of an index tuple in the C-order contents. *)
Fixpoint ravel_index (shp idx : list Z) : result Z :=
  match shp, idx with
  | [], [] => Ok 0
  | d :: ds, i :: idx' =>
      i' <- norm_index i d ;;
      p <- ravel_index ds idx' ;;
      Ok (i' * prodZ ds + p)
  | _, _ => Raise IndexError
  end.

Fixpoint list_set (l : list Z) (n : nat) (v : Z) : list Z :=
  match l, n with
  | [], _ => []
  | _ :: t, O => v :: t
  | x :: t, S n' => x :: list_set t n' v
  end.

(** What lies outside the buffers: compiled code checks no bounds, so a
    read at an index outside the extents of an array returns what it finds
    at the position it addresses.  [beyond a p] is what a read finds at
    position [p], counted in elements from the start of the contents of [a],
    when the contents have no cell there.  Nothing is assumed about it. *)
Class Memory : Type := { beyond : ndarray -> Z -> Z }.

(** One component of an index in a read that checks no bounds: a negative
    index counts from the end, and nothing else is looked at. *)
Definition wrap_index (i d : Z) : Z := if i <? 0 then i + d else i.

(** The position that an index tuple addresses in the C-order contents, no
    bound checked.  An index tuple of another length than the rank is not the
    index of an element. *)
Fixpoint offset (shp idx : list Z) : result Z :=
  match shp, idx with
  | [], [] => Ok 0
  | d :: ds, i :: idx' =>
      p <- offset ds idx' ;;
      Ok (wrap_index i d * prodZ ds + p)
  | _, _ => Raise TypingError
  end.

(** The cell of the contents at a position, or what lies there. *)
Definition read {mem : Memory} (a : ndarray) (p : Z) : Z :=
  match (if p <? 0 then None else nth_error (data a) (Z.to_nat p)) with
  | Some x => x
  | None => beyond a p
  end.

(** [a[idx]] with a full index tuple, as the compiled code of [reduce] reads
    it: without a check of the bounds. *)
Definition getitem {mem : Memory} (a : ndarray) (idx : list Z) : result Z :=
  p <- offset (shape a) idx ;;
  Ok (read a p).

(** [a[idx] = v] with a full index tuple.  The stores of [reduce], and its
    reads and stores through the flat view below, go to cells of the result
    whenever the axis is valid ([LoopFacts.fold_loop_total],
    [LoopFacts.seed_loop_total]); a store outside the buffer, which [reduce]
    never makes, is stopped with an error. *)
Definition setitem (a : ndarray) (idx : list Z) (v : Z) : result ndarray :=
  p <- ravel_index (shape a) idx ;;
  if (Z.to_nat p <? length (data a))%nat
  then Ok {| shape := shape a; elt := elt a;
             data := list_set (data a) (Z.to_nat p) (cast (elt a) v) |}
  else Raise IndexError.

(** [view[pos]] where [view = a.ravel()] and [a] is C-contiguous. *)
Definition view_get (a : ndarray) (pos : Z) : result Z :=
  p <- norm_index pos (Z.of_nat (length (data a))) ;;
  of_option (nth_error (data a) (Z.to_nat p)) IndexError.

(** [view[pos] = v]; the view shares the buffer of [a]. *)
Definition view_set (a : ndarray) (pos : Z) (v : Z) : result ndarray :=
  p <- norm_index pos (Z.of_nat (length (data a))) ;;
  Ok {| shape := shape a; elt := elt a;
        data := list_set (data a) (Z.to_nat p) (cast (elt a) v) |}.

(** An element has a positive size. *)
Definition wf_dtype (dt : dtype) : Prop := 0 < itemsize dt.

(** No extent is negative, the contents have one cell per index tuple and
    the element type is well formed. *)
Definition wf_array (a : ndarray) : Prop :=
  Forall (fun d => 0 <= d) (shape a) /\
  length (data a) = Z.to_nat (prodZ (shape a)) /\
  wf_dtype (elt a).

(** An index tuple within the extents of a shape. *)
Definition in_bounds (idx shp : list Z) : Prop :=
  Forall2 (fun i d => 0 <= i < d) idx shp.

(** The position of an in-bounds index tuple in the C-order contents. *)
Fixpoint ravel_value (shp idx : list Z) : Z :=
  match shp, idx with
  | _ :: ds, i :: idx' => i * prodZ ds + ravel_value ds idx'
  | _, _ => 0
  end.

(** What a loop over a result array leaves fixed: the shape, the element
    type and the number of cells. *)
Definition same_frame (r r' : ndarray) : Prop :=
  shape r' = shape r /\ elt r' = elt r /\ length (data r') = length (data r).

(** The sum of the products of strides and coordinates. *)
Fixpoint dot (strides coords : list Z) : Z :=
  match strides, coords with
  | s :: strides', c :: coords' => s * c + dot strides' coords'
  | _, _ => 0
  end.

End NdArray.

(** ** The reduction engine: [DUFunc._install_ufunc_reduce] *)

Module Reduce.
Import Tuple NdArray.

(** The Numba types the typing function [ol_reduce] tells apart. *)
Inductive nbtype : Type :=
| TInteger
| TIntegerLiteral (v : Z)
| TFloat
| TNoneType
| TOmitted
| TArray (ndim : nat)
| TUniTuple (dtype : nbtype) (count : nat)
| TEmptyTuple
| TOther.

(** What a keyword parameter of [ol_reduce] is bound to: the type of the
    argument at the call site, or, when the call does not pass it, the Python
    default of the parameter ([axis=0], [dtype=None], [initial=None]). *)
Inductive typing_arg : Type :=
| Default
| Given (t : nbtype).

(** The implementations [ol_reduce] chooses from. *)
Inductive impl : Type :=
| Impl1d
| ImplNdAxisInt
| ImplNdAxisTuple.

(** The elementwise function: its name, its identity element and the scalar
    function a call [ufunc(lhs, rhs)] evaluates. *)
Record ufunc : Type :=
  { name : string; identity : option Z; call : Z -> Z -> Z }.

(** A run-time value: a scalar or an array. *)
Inductive value : Type :=
| VScalar (z : Z)
| VArray (a : ndarray).

(** The [axis] argument of a call. *)
Inductive axis_val : Type :=
| AxisOmitted
| AxisInt (k : Z)
| AxisTuple (t : list Z)
| AxisNone.

Definition typeof (v : value) : nbtype :=
  match v with
  | VScalar _ => TInteger
  | VArray a => TArray (length (shape a))
  end.

Definition typeof_axis (axis : axis_val) : typing_arg :=
  match axis with
  | AxisOmitted => Default
  | AxisInt _ => Given TInteger
  | AxisTuple [] => Given TEmptyTuple
  | AxisTuple t => Given (TUniTuple TInteger (length t))
  | AxisNone => Given TNoneType
  end.

Definition typeof_opt {A : Type} (ty : nbtype) (o : option A) : typing_arg :=
  match o with
  | None => Default
  | Some _ => Given ty
  end.

(** [isinstance(t, types.Integer)]; an integer literal type is one too. *)
Definition is_integer (t : nbtype) : bool :=
  match t with
  | TInteger | TIntegerLiteral _ => true
  | _ => false
  end.

Definition dquote : string := String (ascii_of_nat 34) EmptyString.

Definition msg_array_like : string :=
  "The first argument " ++ dquote ++ "array" ++ dquote
  ++ " must be array-like".

Definition msg_not_reorderable (ufunc_name : string) : string :=
  "reduction operation '" ++ ufunc_name ++ "' is not "
  ++ "reorderable, so at most one axis may be specified".

(** [axis_int = isinstance(axis, types.Integer)]. *)
Definition axis_int (axis : typing_arg) : bool :=
  match axis with
  | Given t => is_integer t
  | Default => false
  end.

(** [axis_int_tuple]: a [UniTuple] whose [dtype] is an integer type. *)
Definition axis_int_tuple (axis : typing_arg) : bool :=
  match axis with
  | Given (TUniTuple dt _) => is_integer dt
  | _ => false
  end.

(** [axis_tuple_size = len(axis) if axis_int_tuple else 0]. *)
Definition axis_tuple_size (axis : typing_arg) : nat :=
  match axis with
  | Given (TUniTuple dt n) => if is_integer dt then n else O
  | _ => O
  end.

(** [axis == 0 or isinstance(axis, (Integer, Omitted, IntegerLiteral))]: the
    Python default 0 equals 0, no Numba type does. *)
Definition axis_default_or_integer (axis : typing_arg) : bool :=
  match axis with
  | Default => true
  | Given t => is_integer t || match t with TOmitted => true | _ => false end
  end.

(** [ol_reduce]: the checks and the choice of the implementation.  [Ok None]
    is the typing function falling off its end without an implementation. *)
Definition ol_reduce (u : ufunc) (array : nbtype)
                     (axis dtype initial : typing_arg)
  : result (option impl) :=
  match array with
  | TArray ndim =>
      if match identity u with None => true | Some _ => false end
         && negb (axis_int axis
                  || (axis_int_tuple axis && (axis_tuple_size axis =? 1)%nat))
      then Raise (NumbaTypeError (msg_not_reorderable (name u)))
      else if (ndim =? 1)%nat then Ok (Some Impl1d)
      else if axis_int_tuple axis then Ok (Some ImplNdAxisTuple)
      else if axis_default_or_integer axis then Ok (Some ImplNdAxisInt)
      else Ok None
  | _ => Raise (NumbaTypeError msg_array_like)
  end.

Section WithMemory.

Context {mem : Memory}.

(** The [for i in range(sz)] loop of [impl_1d]. *)
Fixpoint impl_1d_loop (u : ufunc) (array : ndarray) (range : list Z) (r : Z)
  : result Z :=
  match range with
  | [] => Ok r
  | i :: range' =>
      x <- getitem array [i] ;;
      impl_1d_loop u array range' (call u r x)
  end.

Definition impl_1d (u : ufunc) (array : ndarray) (initial : option Z)
  : result Z :=
  r <- match initial, identity u with
       | None, None => getitem array [0]
       | None, Some e => Ok e
       | Some v, _ => Ok v
       end ;;
  sz <- of_option (nth_error (shape array) 0) IndexError ;;
  impl_1d_loop u array (zrange sz) r.

(** The loop that seeds the result from the slice at index 0 of the reduced
    axis: [for idx, _ in np.ndenumerate(r)]. *)
Fixpoint seed_loop (array : ndarray) (axis : Z) (idxs : list (list Z))
                   (r : ndarray) : result ndarray :=
  match idxs with
  | [] => Ok r
  | idx :: idxs' =>
      result_idx <- tuple_slice_append (ndim array) idx axis 0 ;;
      x <- getitem array result_idx ;;
      r' <- setitem r idx x ;;
      seed_loop array axis idxs' r'
  end.

(** The fold [for idx, val in np.ndenumerate(array)]; the writes go through
    [view = r.ravel()] into [r]. *)
Fixpoint fold_loop (u : ufunc) (axis : Z) (items : list (list Z * Z))
                   (r : ndarray) : result ndarray :=
  match items with
  | [] => Ok r
  | (idx, val) :: items' =>
      flat_pos <- compute_flat_idx (strides r) (itemsize (elt r)) idx axis ;;
      lhs <- view_get r flat_pos ;;
      r' <- view_set r flat_pos (call u lhs val) ;;
      fold_loop u axis items' r'
  end.

Definition impl_nd_axis_int (u : ufunc) (array : ndarray) (axis : axis_val)
                            (dtype : option dtype) (initial : option Z)
  : result ndarray :=
  match axis with
  | AxisNone => Raise (ValueError "'axis' must be specified")
  | AxisTuple _ => Raise TypingError
  | AxisOmitted | AxisInt _ =>
      let axis := match axis with AxisInt k => k | _ => 0 end in
      if (axis <? 0) || (axis >=? ndim array)
      then Raise (ValueError "Invalid axis")
      else
        let shp := tuple_slice (ndim array) (shape array) axis in
        let nb_dtype := match dtype with None => elt array | Some d => d end in
        r <- match initial, identity u with
             | None, None =>
                 seed_loop array axis (ndindex shp) (np_empty shp nb_dtype)
             | None, Some e => Ok (np_full shp e nb_dtype)
             | Some v, _ => Ok (np_full shp v nb_dtype)
             end ;;
        fold_loop u axis (ndenumerate array) r
  end.

(** The loop of the last branch of [impl_nd_axis_tuple]:
    [for i in range(len(ax)): if i != min_idx: ax = tuple_setitem(ax, i, axis[i])]. *)
Fixpoint axis_rest_loop (range : list nat) (min_idx : nat)
                        (axis ax : list Z) : result (list Z) :=
  match range with
  | [] => Ok ax
  | i :: range' =>
      if negb (i =? min_idx)%nat
      then
        e <- of_option (nth_error axis i) IndexError ;;
        axis_rest_loop range' min_idx axis (tuple_setitem ax i e)
      else axis_rest_loop range' min_idx axis ax
  end.

(** [impl_nd_axis_tuple]; [reduce] is [ufunc.reduce], which it calls back. *)
Definition impl_nd_axis_tuple
    (reduce : value -> axis_val -> option dtype -> option Z -> result value)
    (array : ndarray) (axis : list Z)
    (dtype : option dtype) (initial : option Z) : result value :=
  m <- find_min axis ;;
  let (min_idx, min_elem) := m in
  r <- reduce (VArray array) (AxisInt min_elem) dtype initial ;;
  if (length axis =? 1)%nat then Ok r
  else if (length axis =? 2)%nat then
    other <- of_option (nth_error axis ((min_idx + 1) mod 2)) IndexError ;;
    reduce r (AxisInt (other - 1)) None None
  else
    let axis_tup := zeros (Z.of_nat (length axis) - 1) in
    ax <- axis_rest_loop (seq 0 (length axis_tup)) min_idx axis axis_tup ;;
    reduce r (AxisTuple ax) None None.

(** [ufunc.reduce(array, axis, dtype, initial)]: type the call with
    [ol_reduce], then run the implementation it chose.  [depth] bounds the
    nesting of the calls back from [impl_nd_axis_tuple]. *)
Fixpoint reduce_depth (depth : nat) (u : ufunc) (array : value)
                      (axis : axis_val) (dtype : option dtype)
                      (initial : option Z) : result value :=
  match depth with
  | O => Raise RecursionError
  | S depth' =>
      chosen <- ol_reduce u (typeof array) (typeof_axis axis)
                  (typeof_opt TOther dtype) (typeof_opt TInteger initial) ;;
      match chosen, array with
      | Some Impl1d, VArray a =>
          r <- impl_1d u a initial ;; Ok (VScalar r)
      | Some ImplNdAxisInt, VArray a =>
          r <- impl_nd_axis_int u a axis dtype initial ;; Ok (VArray r)
      | Some ImplNdAxisTuple, VArray a =>
          match axis with
          | AxisTuple t =>
              impl_nd_axis_tuple (reduce_depth depth' u) a t dtype initial
          | _ => Raise TypingError
          end
      | _, _ => Raise TypingError
      end
  end.

(** Each call back from [impl_nd_axis_tuple] passes an integer or a tuple one
    shorter, so the length of the tuple bounds the nesting. *)
Definition axis_depth (axis : axis_val) : nat :=
  match axis with
  | AxisTuple t => S (length t)
  | _ => 1%nat
  end.

Definition reduce (u : ufunc) (array : value) (axis : axis_val)
                  (dtype : option dtype) (initial : option Z) : result value :=
  reduce_depth (axis_depth axis) u array axis dtype initial.

End WithMemory.

(** The shape of a result; a scalar has the empty shape. *)
Definition value_shape (v : value) : list Z :=
  match v with
  | VScalar _ => []
  | VArray a => shape a
  end.

End Reduce.

(** ** The specialization table: class [DUFunc] *)

Module DUFunc.

(** Element types. *)
Inductive etype : Type :=
| int8 | int16 | int32 | int64 | float32 | float64.

Definition etype_eq_dec (a b : etype) : {a = b} + {a <> b}.
Proof. decide equality. Defined.

Definition etypes_eq_dec (a b : list etype) : {a = b} + {a <> b} :=
  list_eq_dec etype_eq_dec a b.

(** A type signature: the input types and the return type. *)
Record signature : Type := { args : list etype; return_type : etype }.

(** What the compiler backend hands back for one signature. *)
Record compile_result : Type :=
  { library : nat; llvm_func_name : string; objectmode : bool }.

(** A loop of the ufunc as [ufunc_find_matching_loop] reports it. *)
Record loop : Type := { inputs : list etype; outputs : list etype }.

(** The state of a [DUFunc] object that the methods below read or write:
    [overloads] is [self._dispatcher.overloads], an insertion-ordered dict;
    [loops] lists the calls of [_add_loop] in their order, each with the
    dtype numbers and the pointer it was given (the table of loops that the
    ufunc object keeps after these calls is [loop_table] below);
    [libs] is [self._lower_me.libs]. *)
Record dufunc : Type :=
  { ufunc_name : string;
    nin : nat;
    nout : nat;
    _frozen : bool;
    overloads : list (signature * compile_result);
    loops : list (list nat * Z);
    _keepalive : list (Z * nat * nat);
    libs : list nat }.

(** Methods run in a state-and-exception monad over the object. *)
Definition M (A : Type) : Type := dufunc -> result A * dufunc.

Definition ret {A : Type} (a : A) : M A := fun d => (Ok a, d).

Definition raise {A : Type} (e : exn) : M A := fun d => (Raise e, d).

Definition bindM {A B : Type} (m : M A) (k : A -> M B) : M B :=
  fun d =>
    match m d with
    | (Ok a, d') => k a d'
    | (Raise e, d') => (Raise e, d')
    end.

Definition get : M dufunc := fun d => (Ok d, d).

Definition put (d' : dufunc) : M unit := fun _ => (Ok tt, d').

Definition lift {A : Type} (r : result A) : M A := fun d => (r, d).

Notation "x <~ m ;; k" := (bindM m (fun x => k))
  (at level 61, m at next level, right associativity).

(** The type of an argument at a call site. *)
Inductive argty : Type :=
| ScalarTy (t : etype)
| ArrayTy (dtype : etype) (ndim : nat) (layout : ascii).

(** The signature of a typed call, as [signature] builds it from [outtys]. *)
Record call_signature : Type := { cs_return : argty; cs_args : list argty }.

(** Modelled from the spec: the table of loops of the ufunc object has
    unique keys.  Registering a loop under a key of the table replaces the
    loop there; under any other key it adds an entry at the end. *)
Fixpoint register (table : list (list nat * Z)) (dtypenums : list nat)
                  (ptr : Z) : list (list nat * Z) :=
  match table with
  | [] => [(dtypenums, ptr)]
  | (key, old) :: table' =>
      if list_eq_dec Nat.eq_dec key dtypenums
      then (key, ptr) :: table'
      else (key, old) :: register table' dtypenums ptr
  end.

(** The table of loops after the calls of [_add_loop] made so far. *)
Definition loop_table (d : dufunc) : list (list nat * Z) :=
  fold_left (fun table l => register table (fst l) (snd l)) (loops d) [].

(** The property [ntypes]: the number of loops of the ufunc object. *)
Definition ntypes (d : dufunc) : nat := length (loop_table d).

(** The loop registered under a key, if there is one. *)
Fixpoint find_loop (table : list (list nat * Z)) (dtypenums : list nat)
  : option Z :=
  match table with
  | [] => None
  | (key, ptr) :: table' =>
      if list_eq_dec Nat.eq_dec key dtypenums then Some ptr
      else find_loop table' dtypenums
  end.

Section Collaborators.

(** What a caller may pass to [add]: a string, a tuple or a signature. *)
Variable user_sig : Type.

(** [sigutils.normalize_signature]. *)
Variable normalize_signature :
  user_sig -> result (list etype * option etype).

(** [ufuncbuilder._compile_element_wise_function]: it compiles through the
    dispatcher, whose table of overloads it may extend. *)
Variable compile_element_wise_function :
  list (signature * compile_result) -> list etype -> option etype ->
  result (compile_result * list etype * option etype
          * list (signature * compile_result)).

(** [ufuncbuilder._finalize_ufunc_signature]. *)
Variable finalize_ufunc_signature :
  compile_result -> list etype -> option etype -> result signature.

(** [ufuncbuilder._build_element_wise_ufunc_wrapper]: the dtype numbers, the
    pointer to the loop and its environment. *)
Variable build_element_wise_ufunc_wrapper :
  compile_result -> signature -> result (list nat * Z * nat).

(** [numpy_support.ufunc_find_matching_loop]. *)
Variable ufunc_find_matching_loop : dufunc -> list etype -> option loop.

(** [npydecl.Numpy_rules_ufunc._handle_inputs]: the base types, the explicit
    outputs, the rank and the layout of the result. *)
Variable handle_inputs :
  dufunc -> list argty -> result (list etype * list argty * nat * ascii).

(** [str(argtys)], the tuple of argument types in a message. *)
Variable str_argtys : list argty -> string.

(** The values that a call passes at run time. *)
Variable pyval : Type.

(** [numba.typeof]; a type that is not an array type is a [ScalarTy]. *)
Variable typeof : pyval -> result argty.

(** [numpy_support.map_arrayscalar_type]. *)
Variable map_arrayscalar_type : pyval -> result etype.

(** [repr] of a keyword. *)
Variable repr : string -> string.

(** [str(self)] in the messages; the class does not define it, the C base
    class does. *)
Variable str : dufunc -> string.

Definition disable_compile : M unit :=
  d <~ get ;;
  if (0 <? length (overloads d))%nat
  then put {| ufunc_name := ufunc_name d; nin := nin d; nout := nout d;
              _frozen := true; overloads := overloads d; loops := loops d;
              _keepalive := _keepalive d; libs := libs d |}
  else raise AssertionError.

(** Modelled from the spec: [_add_loop] is a method of the C base class and
    is not part of the source file.  It registers the loop with the ufunc
    object under the tuple of dtype numbers; the call is recorded in [loops],
    and [loop_table] gives the table of the ufunc object, in which a loop
    registered under a key that is there already takes the place of the old
    one. *)
Definition _add_loop (ptr : Z) (dtypenums : list nat) : M unit :=
  d <~ get ;;
  put {| ufunc_name := ufunc_name d; nin := nin d; nout := nout d;
         _frozen := _frozen d; overloads := overloads d;
         loops := loops d ++ [(dtypenums, ptr)];
         _keepalive := _keepalive d; libs := libs d |}.

Definition _compile_for_argtys (argtys : list etype)
                               (return_type : option etype)
  : M compile_result :=
  d <~ get ;;
  if _frozen d
  then raise (RuntimeError ("compilation disabled for " ++ str d))
  else
    c <~ lift (compile_element_wise_function (overloads d) argtys
                 return_type) ;;
    let '(cres, argtys, return_type, overloads') := c in
    _ <~ put {| ufunc_name := ufunc_name d; nin := nin d; nout := nout d;
                _frozen := _frozen d; overloads := overloads';
                loops := loops d; _keepalive := _keepalive d;
                libs := libs d |} ;;
    actual_sig <~ lift (finalize_ufunc_signature cres argtys return_type) ;;
    w <~ lift (build_element_wise_ufunc_wrapper cres actual_sig) ;;
    let '(dtypenums, ptr, env) := w in
    _ <~ _add_loop ptr dtypenums ;;
    d1 <~ get ;;
    _ <~ put {| ufunc_name := ufunc_name d1; nin := nin d1; nout := nout d1;
                _frozen := _frozen d1; overloads := overloads d1;
                loops := loops d1;
                _keepalive := _keepalive d1 ++ [(ptr, library cres, env)];
                libs := libs d1 ++ [library cres] |} ;;
    ret cres.

Definition add (sig : user_sig) : M compile_result :=
  n <~ lift (normalize_signature sig) ;;
  let (args, return_type) := n in
  _compile_for_argtys args return_type.

(** The keywords of a call, in the order of the call; [kws.pop(k)] looks the
    keyword up and removes it. *)
Fixpoint kw_lookup (k : string) (kws : list (string * pyval))
  : option pyval :=
  match kws with
  | [] => None
  | (k', v) :: kws' => if String.eqb k' k then Some v else kw_lookup k kws'
  end.

Definition kw_remove (k : string) (kws : list (string * pyval))
  : list (string * pyval) :=
  filter (fun kv => negb (String.eqb (fst kv) k)) kws.

(** [sorted] on keywords: by insertion, in the order of the characters. *)
Fixpoint insert_sorted (k : string) (l : list string) : list string :=
  match l with
  | [] => [k]
  | x :: l' => if String.leb k x then k :: l else x :: insert_sorted k l'
  end.

Definition sorted (l : list string) : list string :=
  fold_right insert_sorted [] l.

(** The loop [for arg in args[:nin]] of [_compile_for_args]: the element
    type of an array, and for any other value the type NumPy gives it. *)
Fixpoint argtys_of (args : list pyval) : result (list etype) :=
  match args with
  | [] => Ok []
  | arg :: args' =>
      argty <- typeof arg ;;
      t <- match argty with
           | ArrayTy dtype _ _ => Ok dtype
           | ScalarTy _ => map_arrayscalar_type arg
           end ;;
      ts <- argtys_of args' ;;
      Ok (t :: ts)
  end.

Definition _compile_for_args (args : list pyval)
                             (kws : list (string * pyval))
  : M compile_result :=
  d <~ get ;;
  let (args, kws) :=
    match kw_lookup "out" kws with
    | Some out => (args ++ [out], kw_remove "out" kws)
    | None => (args, kws)
    end in
  match kws with
  | _ :: _ =>
      raise (TypeError ("unexpected keyword arguments to ufunc: "
                        ++ String.concat ", " (map repr (sorted (map fst kws)))))
  | [] =>
      let args_len := length args in
      if (args_len =? nin d)%nat || (args_len =? nin d + nout d)%nat
      then
        argtys <~ lift (argtys_of (firstn (nin d) args)) ;;
        _compile_for_argtys argtys None
      else raise AssertionError
  end.

(** The loop [for sig, cres in self._dispatcher.overloads.items()]. *)
Fixpoint find_exact (items : list (signature * compile_result))
                    (ewise_types : list etype)
  : option (signature * compile_result) :=
  match items with
  | [] => None
  | (sig, cres) :: items' =>
      if etypes_eq_dec (args sig) ewise_types
      then Some (sig, cres)
      else find_exact items' ewise_types
  end.

(** [find_ewise_function]; the pair [(None, None)] is [None]. *)
Definition find_ewise_function (ewise_types : list etype)
  : M (option (signature * compile_result)) :=
  d <~ get ;;
  if _frozen d
  then
    match ufunc_find_matching_loop d ewise_types with
    | None => ret None
    | Some loop =>
        let ewise_types :=
          firstn (length ewise_types) (inputs loop ++ outputs loop) in
        ret (find_exact (overloads d) ewise_types)
    end
  else ret (find_exact (overloads d) ewise_types).

(** [_type_me]: the typing of a call. *)
Definition _type_me (argtys : list argty) (kwtys : list (string * argty))
  : M call_signature :=
  match kwtys with
  | _ :: _ => raise AssertionError
  | [] =>
      d <~ get ;;
      h <~ lift (handle_inputs d argtys) ;;
      let '(base_types, explicit_outputs, ndims, layout) := h in
      let explicit_output_count := length explicit_outputs in
      let ewise_types :=
        if (0 <? explicit_output_count)%nat
        then firstn (length base_types - explicit_output_count) base_types
        else base_types in
      found <~ find_ewise_function ewise_types ;;
      found <~ match found with
               | Some sc => ret sc
               | None =>
                   if _frozen d
                   then raise (TypeError ("cannot call " ++ str d
                                          ++ " with types "
                                          ++ str_argtys argtys))
                   else
                     _ <~ _compile_for_argtys ewise_types None ;;
                     again <~ find_ewise_function ewise_types ;;
                     match again with
                     | Some sc => ret sc
                     | None => raise AssertionError
                     end
               end ;;
      let (sig, _) := found : signature * compile_result in
      outtys <~ (if (0 <? explicit_output_count)%nat
                 then ret explicit_outputs
                 else if (nout d =? 1)%nat
                 then if (0 <? ndims)%nat
                      then ret [ArrayTy (return_type sig) ndims layout]
                      else ret [ScalarTy (return_type sig)]
                 else raise (NotImplementedError
                               "typing gufuncs (nout > 1)")) ;;
      match outtys ++ argtys with
      | r :: a => ret {| cs_return := r; cs_args := a |}
      | [] => raise (TypeError "signature() takes at least one type")
      end
  end.

(** A registered signature is something a caller may pass to [add]. *)
Variable of_signature : signature -> user_sig.

(** [_reduce_states]: the frozen flag and the list of the registered
    signatures; the dispatcher and the identity are passed on as they are. *)
Definition _reduce_states (d : dufunc) : bool * list signature :=
  (_frozen d, map fst (overloads d)).

(** The loop [for sig in siglist: self.add(sig)] of [_rebuild]. *)
Fixpoint readd (siglist : list signature) : M unit :=
  match siglist with
  | [] => ret tt
  | sig :: siglist' => _ <~ add (of_signature sig) ;; readd siglist'
  end.

(** [_rebuild], run on the object that [_initialize] has set up. *)
Definition _rebuild (frozen : bool) (siglist : list signature) : M unit :=
  _ <~ readd siglist ;;
  if frozen then disable_compile else ret tt.

End Collaborators.

(** *** The promotion search, for the scenarios of the specification *)

(** Modelled from the spec: whether a value of the first type converts to
    the second without loss, in NumPy's sense of a safe cast. *)
Definition int_bits (t : etype) : option nat :=
  match t with
  | int8 => Some 8%nat
  | int16 => Some 16%nat
  | int32 => Some 32%nat
  | int64 => Some 64%nat
  | float32 | float64 => None
  end.

Definition safe_cast (from to : etype) : bool :=
  match int_bits from, int_bits to with
  | Some m, Some n => (m <=? n)%nat
  | Some m, None =>
      match to with
      | float32 => (m <=? 16)%nat
      | _ => true
      end
  | None, Some _ => false
  | None, None =>
      match from, to with
      | float64, float32 => false
      | _, _ => true
      end
  end.

Fixpoint all_safe (from to : list etype) : bool :=
  match from, to with
  | [], [] => true
  | a :: from', b :: to' => safe_cast a b && all_safe from' to'
  | _, _ => false
  end.

(** The position of a type in the promotion order. *)
Definition rank (t : etype) : nat :=
  match t with
  | int8 => 0 | int16 => 1 | int32 => 2 | int64 => 3
  | float32 => 4 | float64 => 5
  end%nat.

(** Whether the first tuple of types promotes less than the second, the
    first position being the primary discriminator. *)
Fixpoint less_promoting (a b : list etype) : bool :=
  match a, b with
  | x :: a', y :: b' =>
      (rank x <? rank y)%nat
      || ((rank x =? rank y)%nat && less_promoting a' b')
  | _, _ => false
  end.

Fixpoint least_promoting (best : signature) (rest : list signature)
  : signature :=
  match rest with
  | [] => best
  | s :: rest' =>
      if less_promoting (args s) (args best)
      then least_promoting s rest'
      else least_promoting best rest'
  end.

(** Modelled from the spec: [numpy_support.ufunc_find_matching_loop] is not
    part of the source file.  Among all stored signatures it selects one such
    that every input type of the call can be safely cast to the corresponding
    stored input type; if several qualify it prefers the one requiring the
    least-promoting cast per position, evaluated left to right; if none
    qualifies it reports no match. *)
Definition promotion_search (d : dufunc) (ewise_types : list etype)
  : option loop :=
  match filter (fun s => all_safe ewise_types (args s))
               (map fst (overloads d)) with
  | [] => None
  | s :: rest =>
      let best := least_promoting s rest in
      Some {| inputs := args best; outputs := [return_type best] |}
  end.

End DUFunc.

(** ** Notions of the specification *)

Module Spec.
Import Reduce.

(** A tuple with the component at position [k] removed. *)
Definition remove_at (k : nat) (l : list Z) : list Z :=
  firstn k l ++ skipn (S k) l.

(** An [axis] argument that is a single integer or a one-element tuple of
    integers. *)
Inductive single_axis : typing_arg -> Prop :=
| single_integer (t : nbtype) :
    is_integer t = true -> single_axis (Given t)
| single_tuple (dt : nbtype) :
    is_integer dt = true -> single_axis (Given (TUniTuple dt 1)).

(** The seed of a fold: [initial] if given, else the identity element if
    given, else the first element. *)
Definition seed (initial identity : option Z) (first : Z) : Z :=
  match initial, identity with
  | Some v, _ => v
  | None, Some e => e
  | None, None => first
  end.

(** Whether the fold has a seed besides the elements of the array. *)
Definition seeded (initial identity : option Z) : bool :=
  match initial, identity with
  | None, None => false
  | _, _ => true
  end.

(** The outcome of a lookup by exact structural match of the input types
    against the registered signatures: an entry of the table whose input types
    are the requested ones, or nothing when the table has no such entry. *)
Definition exact_match (table : list (DUFunc.signature * DUFunc.compile_result))
                       (tys : list DUFunc.etype)
                       (r : result (option (DUFunc.signature
                                            * DUFunc.compile_result)))
  : Prop :=
  match r with
  | Ok (Some (sig, cres)) => In (sig, cres) table /\ DUFunc.args sig = tys
  | Ok None =>
      forall sig cres, In (sig, cres) table -> DUFunc.args sig <> tys
  | Raise _ => False
  end.

End Spec.

(** ** The elements along an axis *)

Module Lanes.
Import NdArray.

(** A tuple with [v] inserted at position [k]. *)
Definition insert_at (k : nat) (v : Z) (l : list Z) : list Z :=
  firstn k l ++ v :: skipn k l.

(** The element of an array at an index tuple within its extents. *)
Definition item (a : ndarray) (idx : list Z) : Z :=
  nth (Z.to_nat (ravel_value (shape a) idx)) (data a) 0.

(** The elements of an array along axis [k], at the index tuple [j] of the
    other axes, in increasing order of the index along [k]. *)
Definition lane (a : ndarray) (k : nat) (j : list Z) : list Z :=
  map (fun i => item a (insert_at k i j)) (zrange (nth k (shape a) 0)).

(** Equality of index tuples. *)
Definition index_eqb (x y : list Z) : bool :=
  if list_eq_dec Z.eq_dec x y then true else false.

End Lanes.

(** ** The functions and arrays of the scenarios *)

Module Scenario.
Import NdArray Reduce.

(** Two's complement wrap-around at [bits] bits. *)
Definition wrap (bits : Z) (z : Z) : Z :=
  (z + 2 ^ (bits - 1)) mod 2 ^ bits - 2 ^ (bits - 1).

Definition int32 : dtype := {| itemsize := 4; cast := wrap 32 |}.

Definition int64 : dtype := {| itemsize := 8; cast := wrap 64 |}.

Definition add : ufunc :=
  {| name := "add"; identity := Some 0;
     call := fun a b => wrap 64 (a + b) |}.

Definition maximum : ufunc :=
  {| name := "max"; identity := None; call := Z.max |}.

Definition subtract : ufunc :=
  {| name := "sub"; identity := None;
     call := fun a b => wrap 64 (a - b) |}.

Definition array_1234 : ndarray :=
  {| shape := [4]; elt := int32; data := [1; 2; 3; 4] |}.

Definition array_2x3 : ndarray :=
  {| shape := [2; 3]; elt := int64; data := [1; 5; 2; 4; 0; 6] |}.

Definition array_51 : ndarray :=
  {| shape := [2]; elt := int64; data := [5; 1] |}.

Definition array_2x1x1x1 : ndarray :=
  {| shape := [2; 1; 1; 1]; elt := int64; data := [1; 2] |}.

Definition array_0x1 : ndarray :=
  {| shape := [0; 1]; elt := int64; data := [] |}.

(** A memory for the examples: a read outside a buffer finds the position
    it addresses. *)
Definition positions_beyond : Memory := {| beyond := fun _ p => p |}.

Definition sig_float64 : DUFunc.signature :=
  {| DUFunc.args := [DUFunc.float64]; DUFunc.return_type := DUFunc.float64 |}.

Definition cres_float64 : DUFunc.compile_result :=
  {| DUFunc.library := 0; DUFunc.llvm_func_name := "f_float64";
     DUFunc.objectmode := false |}.

(** A frozen function with only a 64-bit-float specialization. *)
Definition frozen_float64 : DUFunc.dufunc :=
  {| DUFunc.ufunc_name := "f"; DUFunc.nin := 1; DUFunc.nout := 1;
     DUFunc._frozen := true;
     DUFunc.overloads := [(sig_float64, cres_float64)];
     DUFunc.loops := [([12%nat; 12%nat], 4096)];
     DUFunc._keepalive := [(4096, 0%nat, 0%nat)];
     DUFunc.libs := [0%nat] |}.

(** Signatures given to [add] already as input types and a return type. *)
Definition normalized (sig : list DUFunc.etype * option DUFunc.etype)
  : result (list DUFunc.etype * option DUFunc.etype) := Ok sig.

(** A backend for the scenarios: one compile result for every signature. *)
Definition backend (table : list (DUFunc.signature * DUFunc.compile_result))
                   (argtys : list DUFunc.etype)
                   (return_type : option DUFunc.etype)
  : result (DUFunc.compile_result * list DUFunc.etype * option DUFunc.etype
            * list (DUFunc.signature * DUFunc.compile_result)) :=
  let rt := match return_type with
            | Some t => t
            | None => DUFunc.float64
            end in
  Ok (cres_float64, argtys, Some rt,
      table ++ [({| DUFunc.args := argtys; DUFunc.return_type := rt |},
                 cres_float64)]).

Definition finalize (cres : DUFunc.compile_result)
                    (argtys : list DUFunc.etype)
                    (return_type : option DUFunc.etype)
  : result DUFunc.signature :=
  match return_type with
  | Some t => Ok {| DUFunc.args := argtys; DUFunc.return_type := t |}
  | None => Raise (TypeError "return type must be specified")
  end.

Definition wrapper (cres : DUFunc.compile_result) (sig : DUFunc.signature)
  : result (list nat * Z * nat) :=
  Ok (map DUFunc.rank (DUFunc.args sig ++ [DUFunc.return_type sig]),
      4096, 0%nat).

(** Typing of the inputs of a call whose arguments are all inputs: the
    element types, no explicit output, the largest rank, C layout. *)
Definition inputs_only (d : DUFunc.dufunc) (argtys : list DUFunc.argty)
  : result (list DUFunc.etype * list DUFunc.argty * nat * ascii) :=
  Ok (map (fun a => match a with
                    | DUFunc.ScalarTy t => t
                    | DUFunc.ArrayTy t _ _ => t
                    end) argtys,
      [],
      fold_right Nat.max 0%nat
        (map (fun a => match a with
                       | DUFunc.ScalarTy _ => 0%nat
                       | DUFunc.ArrayTy _ n _ => n
                       end) argtys),
      "C"%char).

(** The text of [str(self)] for the scenarios. *)
Definition str (d : DUFunc.dufunc) : string :=
  "<numba._DUFunc '" ++ DUFunc.ufunc_name d ++ "'>".

(** A printer of argument types for the scenarios. *)
Definition etype_name (t : DUFunc.etype) : string :=
  match t with
  | DUFunc.int8 => "int8" | DUFunc.int16 => "int16"
  | DUFunc.int32 => "int32" | DUFunc.int64 => "int64"
  | DUFunc.float32 => "float32" | DUFunc.float64 => "float64"
  end.

Definition str_argty (a : DUFunc.argty) : string :=
  match a with
  | DUFunc.ScalarTy t => etype_name t
  | DUFunc.ArrayTy t _ _ => "array(" ++ etype_name t ++ ")"
  end.

Definition str_argtys (argtys : list DUFunc.argty) : string :=
  "(" ++ String.concat ", " (map str_argty argtys) ++ ")".

End Scenario.

(** * Properties *)

(** * Typing of [reduce] *)

Module TypingFacts.
Import Reduce Spec.

Section WithMemory.

Context {mem : NdArray.Memory}.

Lemma single_axis_guard (axis : typing_arg) :
  single_axis axis <->
  axis_int axis || (axis_int_tuple axis && (axis_tuple_size axis =? 1)%nat)
  = true.
Proof.
  split.
  - intros [t Ht | dt Hdt]; simpl.
    + now rewrite Ht.
    + now rewrite Hdt.
  - destruct axis as [|t]; simpl; [discriminate|].
    destruct (is_integer t) eqn:Ht; simpl.
    + intros _. now constructor.
    + destruct t; simpl; try discriminate.
      destruct (is_integer t) eqn:Hdt; simpl; [|discriminate].
      intros H. apply Nat.eqb_eq in H. subst count. now constructor.
Qed.

(** C10.  A first argument that is not an array is rejected with the type
    error saying that the first argument must be array-like, whatever the
    function and whatever [axis], [dtype] and [initial] are. *)
Theorem ol_reduce_rejects_non_array
    (u : ufunc) (array : nbtype) (axis dtype initial : typing_arg) :
  (forall ndim, array <> TArray ndim) ->
  ol_reduce u array axis dtype initial = Raise (NumbaTypeError msg_array_like).
Proof.
  intros Hna. destruct array; try reflexivity.
  now elim (Hna ndim).
Qed.

Lemma ol_reduce_rejects_non_array_witness :
  (forall ndim, TInteger <> TArray ndim) /\
  ol_reduce Scenario.maximum TInteger (Given (TUniTuple TInteger 2))
    Default Default
  = Raise (NumbaTypeError msg_array_like).
Proof.
  split.
  - intros ndim; discriminate.
  - apply (ol_reduce_rejects_non_array Scenario.maximum TInteger).
    intros ndim; discriminate.
Defined.

(** The same at run time: reducing a scalar raises that error. *)
Lemma reduce_rejects_scalar (u : ufunc) (z : Z) (axis : axis_val)
    (dtype : option NdArray.dtype) (initial : option Z) :
  reduce u (VScalar z) axis dtype initial
  = Raise (NumbaTypeError msg_array_like).
Proof.
  unfold reduce. destruct axis; reflexivity.
Qed.

(** C3.  For a function without identity element, [reduce] on an array is
    rejected with the type error of a non-reorderable reduction when [axis]
    is neither a single integer nor a one-element tuple of integers; when it
    is one of the two the call is typed and an implementation is chosen. *)
Theorem ol_reduce_non_reorderable_guard
    (u : ufunc) (ndim : nat) (axis dtype initial : typing_arg) :
  identity u = None ->
  (~ single_axis axis ->
   ol_reduce u (TArray ndim) axis dtype initial
   = Raise (NumbaTypeError (msg_not_reorderable (name u)))) /\
  (single_axis axis ->
   exists chosen : impl,
     ol_reduce u (TArray ndim) axis dtype initial = Ok (Some chosen)).
Proof.
  intros Hid. unfold ol_reduce. rewrite Hid. simpl. split.
  - intros Hns.
    destruct (axis_int axis
              || (axis_int_tuple axis && (axis_tuple_size axis =? 1)%nat))
      eqn:Hg; [|reflexivity].
    elim Hns. now apply single_axis_guard.
  - intros Hs. pose proof Hs as Hg. apply single_axis_guard in Hg.
    rewrite Hg. simpl.
    destruct (ndim =? 1)%nat; [now eexists|].
    destruct Hs as [t Ht | dt Hdt]; simpl.
    + destruct t; try discriminate; simpl; now eexists.
    + rewrite Hdt. now eexists.
Qed.

Lemma ol_reduce_non_reorderable_guard_witness :
  ol_reduce Scenario.maximum (TArray 2) (Given (TUniTuple TInteger 2))
    Default Default
  = Raise (NumbaTypeError (msg_not_reorderable "max")) /\
  exists chosen : impl,
    ol_reduce Scenario.maximum (TArray 2) (Given (TUniTuple TInteger 1))
      Default Default = Ok (Some chosen).
Proof.
  split.
  - apply (ol_reduce_non_reorderable_guard Scenario.maximum 2
             (Given (TUniTuple TInteger 2)) Default Default eq_refl).
    intros H. inversion H; discriminate.
  - apply (ol_reduce_non_reorderable_guard Scenario.maximum 2
             (Given (TUniTuple TInteger 1)) Default Default eq_refl).
    now constructor.
Defined.

(** Scenario 2, second half: [max] has no identity, so reducing the
    2-dimensional array over [axis=(0, 1)] is rejected. *)
Lemma reduce_max_two_axes_rejected :
  reduce Scenario.maximum (VArray Scenario.array_2x3) (AxisTuple [0; 1])
    None None
  = Raise (NumbaTypeError (msg_not_reorderable "max")).
Proof. reflexivity. Qed.

End WithMemory.

End TypingFacts.

(** * The specialization table *)

Module TableFacts.
Import DUFunc.

Section WithCollaborators.

Variable user_sig : Type.
Variable normalize_signature :
  user_sig -> result (list etype * option etype).
Variable compile_element_wise_function :
  list (signature * compile_result) -> list etype -> option etype ->
  result (compile_result * list etype * option etype
          * list (signature * compile_result)).
Variable finalize_ufunc_signature :
  compile_result -> list etype -> option etype -> result signature.
Variable build_element_wise_ufunc_wrapper :
  compile_result -> signature -> result (list nat * Z * nat).
Variable ufunc_find_matching_loop : dufunc -> list etype -> option loop.
Variable str : dufunc -> string.

Let compile_for_argtys :=
  _compile_for_argtys compile_element_wise_function finalize_ufunc_signature
    build_element_wise_ufunc_wrapper str.

Let add_sig :=
  add user_sig normalize_signature compile_element_wise_function
    finalize_ufunc_signature build_element_wise_ufunc_wrapper str.

Lemma compile_for_argtys_frozen (d : dufunc) (argtys : list etype)
    (return_type : option etype) :
  _frozen d = true ->
  compile_for_argtys argtys return_type d
  = (Raise (RuntimeError ("compilation disabled for " ++ str d)), d).
Proof.
  intros Hf. unfold compile_for_argtys, _compile_for_argtys, bindM, get.
  now rewrite Hf.
Qed.

Lemma find_exact_Some (items : list (signature * compile_result))
    (tys : list etype) (sig : signature) (cres : compile_result) :
  find_exact items tys = Some (sig, cres) ->
  In (sig, cres) items /\ args sig = tys.
Proof.
  induction items as [|[s c] items IH]; simpl; [discriminate|].
  destruct (etypes_eq_dec (args s) tys) as [He|Hne].
  - intros [= <- <-]. auto.
  - intros H. destruct (IH H). auto.
Qed.

Lemma find_exact_None (items : list (signature * compile_result))
    (tys : list etype) :
  find_exact items tys = None <->
  forall sig cres, In (sig, cres) items -> args sig <> tys.
Proof.
  induction items as [|[s c] items IH]; simpl.
  - split; [intros _ ? ? []|reflexivity].
  - destruct (etypes_eq_dec (args s) tys) as [He|Hne].
    + split; [discriminate|]. intros H. now elim (H s c); auto.
    + rewrite IH. split.
      * intros H sig cres [[= <- <-]|Hin]; eauto.
      * intros H sig cres Hin. apply (H sig cres). auto.
Qed.

Lemma find_exact_match (items : list (signature * compile_result))
    (tys : list etype) :
  Spec.exact_match items tys (Ok (find_exact items tys)).
Proof.
  destruct (find_exact items tys) as [[sig cres]|] eqn:H; simpl.
  - now apply find_exact_Some.
  - now apply find_exact_None.
Qed.

(** C4.  On a frozen function [_compile_for_argtys] raises the error of a
    disabled compilation and leaves the object as it was, and so does [add]
    for every signature that normalizes; [add] never changes a frozen
    object. *)
Theorem frozen_rejects_compile (d : dufunc) :
  _frozen d = true ->
  (forall argtys return_type,
      compile_for_argtys argtys return_type d
      = (Raise (RuntimeError ("compilation disabled for " ++ str d)), d)) /\
  (forall sig argtys return_type,
      normalize_signature sig = Ok (argtys, return_type) ->
      add_sig sig d
      = (Raise (RuntimeError ("compilation disabled for " ++ str d)), d)) /\
  (forall sig, snd (add_sig sig d) = d).
Proof.
  intros Hf. split; [|split].
  - intros argtys return_type. now apply compile_for_argtys_frozen.
  - intros sig argtys return_type Hn.
    unfold add_sig, add, bindM, lift. rewrite Hn.
    now apply compile_for_argtys_frozen.
  - intros sig. unfold add_sig, add, bindM, lift.
    destruct (normalize_signature sig) as [[argtys return_type]|e];
      [|reflexivity].
    fold compile_for_argtys.
    now rewrite compile_for_argtys_frozen.
Qed.

(** C5.  [find_ewise_function] leaves the object as it was.  On a function
    that is not frozen it answers by exact match of the requested types
    against the table.  On a frozen function it answers nothing when the
    promotion search finds no loop, and otherwise by exact match of the types
    of the loop the search found. *)
Theorem find_ewise_function_lookup (d : dufunc) (ewise_types : list etype) :
  let r := find_ewise_function ufunc_find_matching_loop ewise_types d in
  snd r = d /\
  (_frozen d = false -> Spec.exact_match (overloads d) ewise_types (fst r)) /\
  (_frozen d = true ->
   match ufunc_find_matching_loop d ewise_types with
   | None => fst r = Ok None
   | Some found =>
       Spec.exact_match (overloads d)
         (firstn (length ewise_types) (inputs found ++ outputs found))
         (fst r)
   end).
Proof.
  unfold find_ewise_function, bindM, get, ret. simpl.
  destruct (_frozen d).
  - destruct (ufunc_find_matching_loop d ewise_types) as [found|]; simpl.
    + repeat split; [discriminate|]. intros _. apply find_exact_match.
    + repeat split. discriminate.
  - simpl. repeat split; [|discriminate]. intros _. apply find_exact_match.
Qed.

End WithCollaborators.

Lemma frozen_rejects_compile_witness :
  _frozen Scenario.frozen_float64 = true /\
  add _ Scenario.normalized Scenario.backend Scenario.finalize
    Scenario.wrapper Scenario.str ([int32], None) Scenario.frozen_float64
  = (Raise (RuntimeError "compilation disabled for <numba._DUFunc 'f'>"),
     Scenario.frozen_float64).
Proof.
  split; [reflexivity|].
  exact (proj1 (proj2 (frozen_rejects_compile _ Scenario.normalized
                         Scenario.backend Scenario.finalize Scenario.wrapper
                         Scenario.str Scenario.frozen_float64 eq_refl))
           ([int32], None) [int32] None eq_refl).
Defined.

(** Scenario 3: the frozen function with only a 64-bit-float specialization,
    asked for a 32-bit integer, answers with the stored 64-bit-float
    signature and is left as it was. *)
Lemma find_ewise_function_lookup_witness :
  let r := find_ewise_function promotion_search [int32]
             Scenario.frozen_float64 in
  snd r = Scenario.frozen_float64 /\
  Spec.exact_match (overloads Scenario.frozen_float64) [float64] (fst r).
Proof.
  destruct (find_ewise_function_lookup promotion_search
              Scenario.frozen_float64 [int32]) as (Hs & _ & Hf).
  split; [exact Hs|exact (Hf eq_refl)].
Defined.

Lemma scenario_3_lookup :
  find_ewise_function promotion_search [int32] Scenario.frozen_float64
  = (Ok (Some (Scenario.sig_float64, Scenario.cres_float64)),
     Scenario.frozen_float64).
Proof. reflexivity. Qed.

(** The whole call of scenario 3 is typed with a 64-bit-float array as its
    result, and the table has no new entry. *)
Lemma scenario_3_call :
  _type_me Scenario.backend Scenario.finalize Scenario.wrapper
    promotion_search Scenario.inputs_only Scenario.str_argtys Scenario.str
    [ArrayTy int32 1 "C"] []
    Scenario.frozen_float64
  = (Ok {| cs_return := ArrayTy float64 1 "C";
           cs_args := [ArrayTy int32 1 "C"] |},
     Scenario.frozen_float64).
Proof. reflexivity. Qed.

(** Not frozen, the same request finds nothing: there is no promotion. *)
Lemma unfrozen_no_promotion :
  find_ewise_function promotion_search [int32]
    {| ufunc_name := "f"; nin := 1; nout := 1; _frozen := false;
       overloads := overloads Scenario.frozen_float64;
       loops := loops Scenario.frozen_float64;
       _keepalive := _keepalive Scenario.frozen_float64;
       libs := libs Scenario.frozen_float64 |}
  = (Ok None,
     {| ufunc_name := "f"; nin := 1; nout := 1; _frozen := false;
        overloads := overloads Scenario.frozen_float64;
        loops := loops Scenario.frozen_float64;
        _keepalive := _keepalive Scenario.frozen_float64;
        libs := libs Scenario.frozen_float64 |}).
Proof. reflexivity. Qed.

End TableFacts.

(** * The flat offset *)

Module FlatIdxFacts.
Import Tuple.

Lemma nth_error_nth_Z (l : list Z) (n : nat) :
  (n < length l)%nat -> nth_error l n = Some (nth n l 0).
Proof.
  revert n. induction l as [|x l IH]; intros [|n] H; simpl in *;
    try lia; auto. apply IH. lia.
Qed.

Lemma sum_tail_shift (strides rest : list Z) (x : Z) (k i : nat) :
  map (fun a => nth (a - i) (x :: rest) 0
                * nth (result_position k a) strides 0)
      (filter (fun a => negb (a =? k)%nat) (seq (S i) (length rest)))
  = map (fun a => nth (a - S i) rest 0
                  * nth (result_position k a) strides 0)
        (filter (fun a => negb (a =? k)%nat) (seq (S i) (length rest))).
Proof.
  apply map_ext_in. intros a Ha. apply filter_In in Ha as [Ha _].
  apply in_seq in Ha.
  replace (a - i)%nat with (S (a - S i)) by lia. reflexivity.
Qed.

Lemma compute_flat_idx_loop_sum (strides : list Z) (k : nat) :
  forall (rest : list Z) (acc : Z) (i j : nat),
    j = (if (i <=? k)%nat then i else pred i) ->
    (length rest + i <= S (length strides))%nat ->
    (k <= length strides)%nat ->
    compute_flat_idx_loop strides rest (Z.of_nat k) acc i j
    = Ok (acc + sumZ (map (fun a => nth (a - i) rest 0
                                    * nth (result_position k a) strides 0)
                          (filter (fun a => negb (a =? k)%nat)
                                  (seq i (length rest))))).
Proof.
  induction rest as [|x rest IH]; intros acc i j Hj Hlen Hk.
  - simpl. f_equal. lia.
  - cbn [compute_flat_idx_loop length seq filter].
    destruct (Nat.eqb_spec i k) as [->|Hne].
    + rewrite Z.eqb_refl. cbn [negb].
      rewrite (IH acc (S k) j); cbn [length] in *; try lia.
      * now rewrite sum_tail_shift.
      * rewrite Nat.leb_refl in Hj.
        destruct (Nat.leb_spec (S k) k); lia.
    + replace (Z.of_nat i =? Z.of_nat k) with false
        by (symmetry; apply Z.eqb_neq; lia).
      cbn [negb map].
      assert (Hjs : (j < length strides)%nat).
      { cbn [length] in Hlen. destruct (Nat.leb_spec i k); lia. }
      rewrite (nth_error_nth_Z _ _ Hjs). cbn [of_option bind].
      rewrite (IH _ (S i) (S j)); cbn [length] in *; try lia.
      * rewrite sum_tail_shift. f_equal. unfold sumZ. cbn [fold_right].
        rewrite Nat.sub_diag. cbn [nth].
        assert (Hrp : result_position k i = j).
        { unfold result_position.
          destruct (Nat.ltb_spec i k); destruct (Nat.leb_spec i k); lia. }
        rewrite Hrp. lia.
      * destruct (Nat.leb_spec i k); destruct (Nat.leb_spec (S i) k); lia.
Qed.

(** C9.  For a coordinate tuple, a reduced axis that is one of its
    positions, the strides of the result (one fewer than the coordinates)
    and a non-zero element size, [compute_flat_idx] returns the sum over
    the axes other than the reduced one of the coordinate times the stride of
    the result at the corresponding position, divided by the element size. *)
Theorem compute_flat_idx_formula
    (strides : list Z) (itemsize : Z) (idx : list Z) (axis : Z) :
  S (length strides) = length idx ->
  0 <= axis < Z.of_nat (length idx) ->
  itemsize <> 0 ->
  compute_flat_idx strides itemsize idx axis
  = Ok (flat_offset_spec strides itemsize idx (Z.to_nat axis)).
Proof.
  intros Hlen Hax Hisz. unfold compute_flat_idx, flat_offset_spec.
  rewrite <- (Z2Nat.id axis) at 1 by lia.
  rewrite (compute_flat_idx_loop_sum strides (Z.to_nat axis) idx 0 0 0);
    try lia.
  - cbn [bind]. unfold floordiv.
    destruct (Z.eqb_spec itemsize 0) as [|_]; [contradiction|].
    do 2 f_equal. simpl. f_equal. apply map_ext. intros a.
    now rewrite Nat.sub_0_r.
  - reflexivity.
Qed.

Lemma compute_flat_idx_formula_witness :
  compute_flat_idx [24; 8] 8 [1; 7; 2] 1 = Ok 5.
Proof.
  apply (compute_flat_idx_formula [24; 8] 8 [1; 7; 2] 1);
    [reflexivity | simpl; lia | lia].
Defined.

(** ** Agreement with the 64-bit arithmetic of the compiled function *)

Lemma wrap64_in_range (z : Z) : in_int64 z -> wrap64 z = z.
Proof.
  unfold in_int64, wrap64. intros H. rewrite Z.mod_small; lia.
Qed.

Lemma wrap64_add_wrap64 (a b : Z) : wrap64 (a + wrap64 b) = wrap64 (a + b).
Proof.
  unfold wrap64. f_equal.
  replace (a + ((b + 2 ^ 63) mod 2 ^ 64 - 2 ^ 63) + 2 ^ 63)
    with (a + (b + 2 ^ 63) mod 2 ^ 64) by lia.
  rewrite Z.add_mod_idemp_r by lia. f_equal. lia.
Qed.

Lemma wrap64_wrap64_add (a b : Z) : wrap64 (wrap64 a + b) = wrap64 (a + b).
Proof. now rewrite Z.add_comm, wrap64_add_wrap64, Z.add_comm. Qed.

Lemma compute_flat_idx_loop64_wrap (strides : list Z) (axis : Z) :
  forall (rest : list Z) (acc : Z) (i j : nat),
    compute_flat_idx_loop64 strides rest axis (wrap64 acc) i j
    = (z <- compute_flat_idx_loop strides rest axis acc i j ;; Ok (wrap64 z)).
Proof.
  induction rest as [|x rest IH]; intros acc i j; [reflexivity|].
  cbn [compute_flat_idx_loop64 compute_flat_idx_loop].
  destruct (negb (Z.of_nat i =? axis)); [|apply IH].
  destruct (nth_error strides j) as [s|]; [|reflexivity].
  cbn [of_option bind].
  now rewrite wrap64_add_wrap64, wrap64_wrap64_add, IH.
Qed.

(** X24.  When the byte offset and the flat offset fit in 64 bits,
    [compute_flat_idx] on 64-bit integers that wrap around, as it is
    compiled, returns what the arithmetic on unbounded integers returns. *)
Lemma compute_flat_idx64_agrees
    (strides : list Z) (itemsize : Z) (idx : list Z) (axis : Z)
    (total : Z) :
  compute_flat_idx_loop strides idx axis 0 0 0 = Ok total ->
  in_int64 total -> in_int64 (total / itemsize) ->
  compute_flat_idx64 strides itemsize idx axis
  = compute_flat_idx strides itemsize idx axis.
Proof.
  intros Hloop Ht Hq. unfold compute_flat_idx64, compute_flat_idx.
  change 0 with (wrap64 0) at 1.
  rewrite compute_flat_idx_loop64_wrap, Hloop. cbn [bind].
  rewrite (wrap64_in_range _ Ht). unfold floordiv.
  destruct (itemsize =? 0); [reflexivity|]. cbn [bind].
  now rewrite (wrap64_in_range _ Hq).
Qed.

Lemma compute_flat_idx64_agrees_witness :
  compute_flat_idx64 [24; 8] 8 [1; 7; 2] 1
  = compute_flat_idx [24; 8] 8 [1; 7; 2] 1.
Proof.
  apply (compute_flat_idx64_agrees [24; 8] 8 [1; 7; 2] 1 40).
  - reflexivity.
  - unfold in_int64. split; [discriminate|reflexivity].
  - unfold in_int64. split; [discriminate|reflexivity].
Defined.

End FlatIdxFacts.

(** * Tuples and index arithmetic *)

Module IndexFacts.
Import Tuple NdArray Spec.

Lemma tuple_setitem_app (pre zs : list Z) (z e : Z) :
  tuple_setitem (pre ++ z :: zs) (length pre) e = pre ++ e :: zs.
Proof. induction pre as [|x pre IH]; simpl; [reflexivity|now rewrite IH]. Qed.

Lemma app_cons_assoc (pre zs : list Z) (e : Z) :
  pre ++ e :: zs = (pre ++ [e]) ++ zs.
Proof. now rewrite <- app_assoc. Qed.

Lemma length_snoc (pre : list Z) (e : Z) : length (pre ++ [e]) = S (length pre).
Proof. rewrite length_app. simpl. lia. Qed.

Lemma tuple_slice_loop_after (p : nat) :
  forall (rest pre zs : list Z) (j : nat),
    (p < j)%nat -> length zs = length rest ->
    tuple_slice_loop rest j (Z.of_nat p) (pre ++ zs) (length pre)
    = pre ++ rest.
Proof.
  induction rest as [|e rest IH]; intros pre zs j Hj Hlen.
  - destruct zs; [reflexivity|discriminate].
  - destruct zs as [|z zs]; [discriminate|]. cbn [tuple_slice_loop].
    replace (Z.of_nat j =? Z.of_nat p) with false
      by (symmetry; apply Z.eqb_neq; lia).
    rewrite tuple_setitem_app, (app_cons_assoc pre zs e), <- (length_snoc pre e).
    rewrite IH; [now rewrite <- app_assoc|lia|simpl in Hlen; lia].
Qed.

Lemma tuple_slice_loop_before (p : nat) :
  forall (rest pre zs : list Z) (j : nat),
    (j <= p < j + length rest)%nat -> S (length zs) = length rest ->
    tuple_slice_loop rest j (Z.of_nat p) (pre ++ zs) (length pre)
    = pre ++ remove_at (p - j) rest.
Proof.
  induction rest as [|e rest IH]; intros pre zs j Hj Hlen.
  - simpl in Hj. lia.
  - cbn [tuple_slice_loop]. destruct (Nat.eq_dec j p) as [->|Hne].
    + rewrite Z.eqb_refl, Nat.sub_diag.
      rewrite tuple_slice_loop_after; [reflexivity|lia|simpl in Hlen; lia].
    + replace (Z.of_nat j =? Z.of_nat p) with false
        by (symmetry; apply Z.eqb_neq; lia).
      destruct zs as [|z zs].
      { simpl in Hlen, Hj. destruct rest; simpl in *; [lia|discriminate]. }
      rewrite tuple_setitem_app, (app_cons_assoc pre zs e), <- (length_snoc pre e).
      rewrite IH; [|simpl in Hj; lia|simpl in Hlen; lia].
      rewrite <- app_assoc. simpl.
      replace (p - j)%nat with (S (p - S j)) by lia. reflexivity.
Qed.

(** [tuple_slice] is [tup[0 : pos] + tup[pos + 1:]]. *)
Lemma tuple_slice_remove (tup : list Z) (pos : Z) :
  0 <= pos < Z.of_nat (length tup) ->
  tuple_slice (Z.of_nat (length tup)) tup pos = remove_at (Z.to_nat pos) tup.
Proof.
  intros Hpos. unfold tuple_slice, zeros.
  pose proof (tuple_slice_loop_before (Z.to_nat pos) tup []
                (repeat 0 (Z.to_nat (Z.of_nat (length tup) - 1))) 0) as H.
  rewrite Z2Nat.id in H by lia. cbn [app length] in H.
  rewrite H; [now rewrite Nat.sub_0_r|lia|rewrite repeat_length; lia].
Qed.

Lemma skipn_nth_error (tup : list Z) (i : nat) (e : Z) :
  nth_error tup i = Some e -> skipn i tup = e :: skipn (S i) tup.
Proof.
  revert i. induction tup as [|x tup IH]; intros [|i] H; simpl in *;
    try discriminate.
  - now injection H as ->.
  - now apply IH.
Qed.

Lemma tuple_slice_append_loop_after (tup : list Z) (p : nat) (val : Z) :
  forall (fuel : nat) (pre zs : list Z) (i : nat),
    length zs = fuel -> (i + fuel = length tup)%nat -> (p < length pre)%nat ->
    tuple_slice_append_loop fuel tup (Z.of_nat p) val (pre ++ zs) i
      (length pre)
    = Ok (pre ++ skipn i tup).
Proof.
  induction fuel as [|fuel IH]; intros pre zs i Hzs Hi Hp.
  - destruct zs; [|discriminate]. simpl.
    now rewrite skipn_all2 by lia.
  - destruct zs as [|z zs]; [discriminate|]. cbn [tuple_slice_append_loop].
    replace (Z.of_nat (length pre) =? Z.of_nat p) with false
      by (symmetry; apply Z.eqb_neq; lia).
    destruct (nth_error tup i) as [e|] eqn:He.
    + cbn [of_option bind].
      rewrite tuple_setitem_app, (app_cons_assoc pre zs e), <- (length_snoc pre e).
      rewrite IH; [|simpl in Hzs; lia|lia|rewrite length_snoc; lia].
      rewrite <- app_assoc. simpl. now rewrite (skipn_nth_error _ _ _ He).
    + apply nth_error_None in He. lia.
Qed.

Lemma tuple_slice_append_loop_before (tup : list Z) (p : nat) (val : Z) :
  forall (fuel : nat) (pre zs : list Z),
    (p <= length tup)%nat ->
    length zs = fuel -> (length pre <= p)%nat ->
    (length pre + fuel = S (length tup))%nat ->
    tuple_slice_append_loop fuel tup (Z.of_nat p) val (pre ++ zs)
      (length pre) (length pre)
    = Ok (pre ++ firstn (p - length pre) (skipn (length pre) tup)
              ++ val :: skipn p tup).
Proof.
  induction fuel as [|fuel IH]; intros pre zs Hpt Hzs Hp Hlen.
  - lia.
  - destruct zs as [|z zs]; [discriminate|]. cbn [tuple_slice_append_loop].
    destruct (Nat.eq_dec (length pre) p) as [He|Hne].
    + rewrite He, Z.eqb_refl, <- He.
      rewrite tuple_setitem_app, (app_cons_assoc pre zs val),
        <- (length_snoc pre val).
      rewrite tuple_slice_append_loop_after;
        [|simpl in Hzs; lia|lia|rewrite length_snoc; lia].
      rewrite <- app_assoc, Nat.sub_diag. reflexivity.
    + replace (Z.of_nat (length pre) =? Z.of_nat p) with false
        by (symmetry; apply Z.eqb_neq; lia).
      destruct (nth_error tup (length pre)) as [e|] eqn:He.
      * cbn [of_option bind].
        rewrite tuple_setitem_app, (app_cons_assoc pre zs e), <- (length_snoc pre e).
        rewrite IH; [|lia|simpl in Hzs; lia|rewrite length_snoc; lia
                     |rewrite length_snoc; lia].
        rewrite <- app_assoc, length_snoc. simpl.
        rewrite (skipn_nth_error _ _ _ He).
        replace (p - length pre)%nat with (S (p - S (length pre))) by lia.
        reflexivity.
      * apply nth_error_None in He. lia.
Qed.

(** [tuple_slice_append] is [tup[0 : pos] + (val,) + tup[pos:]]. *)
Lemma tuple_slice_append_insert (tup : list Z) (pos val : Z) :
  0 <= pos <= Z.of_nat (length tup) ->
  tuple_slice_append (Z.of_nat (S (length tup))) tup pos val
  = Ok (firstn (Z.to_nat pos) tup ++ val :: skipn (Z.to_nat pos) tup).
Proof.
  intros Hpos. unfold tuple_slice_append, zeros. rewrite repeat_length.
  pose proof (tuple_slice_append_loop_before tup (Z.to_nat pos) val
                (Z.to_nat (Z.of_nat (S (length tup)))) []
                (repeat 0 (Z.to_nat (Z.of_nat (S (length tup)))))) as H.
  rewrite Z2Nat.id in H by lia. cbn [app length] in H.
  rewrite H; [now rewrite Nat.sub_0_r|lia|now rewrite repeat_length|lia|lia].
Qed.

End IndexFacts.

Module BoundsFacts.
Import Tuple NdArray Spec IndexFacts.

Lemma in_zrange (i n : Z) : In i (zrange n) -> 0 <= i < n.
Proof.
  unfold zrange. intros H. apply in_map_iff in H as (k & <- & Hk).
  apply in_seq in Hk. lia.
Qed.

Lemma ndindex_in_bounds (shp : list Z) :
  forall idx, In idx (ndindex shp) -> in_bounds idx shp.
Proof.
  induction shp as [|d ds IH]; intros idx H; simpl in H.
  - destruct H as [<-|[]]. constructor.
  - apply in_flat_map in H as (i & Hi & H).
    apply in_map_iff in H as (idx' & <- & Hidx').
    constructor; [now apply in_zrange|now apply IH].
Qed.

Lemma prodZ_nonneg (shp : list Z) :
  Forall (fun d => 0 <= d) shp -> 0 <= prodZ shp.
Proof.
  induction 1 as [|d ds Hd _ IH]; simpl; [lia|].
  now apply Z.mul_nonneg_nonneg.
Qed.

Lemma in_bounds_nonneg (idx shp : list Z) :
  in_bounds idx shp -> Forall (fun d => 0 <= d) shp.
Proof. induction 1; constructor; [lia|assumption]. Qed.

Lemma ravel_value_bounds (idx shp : list Z) :
  in_bounds idx shp -> 0 <= ravel_value shp idx < prodZ shp.
Proof.
  induction 1 as [|i d idx shp Hi Hb IH]; simpl; [lia|].
  pose proof (prodZ_nonneg shp (in_bounds_nonneg _ _ Hb)). nia.
Qed.

Lemma ravel_index_in_bounds (idx shp : list Z) :
  in_bounds idx shp -> ravel_index shp idx = Ok (ravel_value shp idx).
Proof.
  induction 1 as [|i d idx shp Hi Hb IH]; simpl; [reflexivity|].
  unfold norm_index.
  replace (i <? 0) with false by (symmetry; apply Z.ltb_ge; lia).
  replace ((0 <=? i) && (i <? d)) with true
    by (symmetry; apply andb_true_iff; split;
        [apply Z.leb_le|apply Z.ltb_lt]; lia).
  cbn [bind]. now rewrite IH.
Qed.

Lemma offset_in_bounds (idx shp : list Z) :
  in_bounds idx shp -> offset shp idx = Ok (ravel_value shp idx).
Proof.
  induction 1 as [|i d idx shp Hi Hb IH]; simpl; [reflexivity|].
  rewrite IH. cbn [bind]. unfold wrap_index.
  now replace (i <? 0) with false by (symmetry; apply Z.ltb_ge; lia).
Qed.

(** An index tuple of the length of the rank addresses a position, inside
    the contents or not. *)
Lemma offset_total (shp : list Z) :
  forall idx, length idx = length shp -> exists p, offset shp idx = Ok p.
Proof.
  induction shp as [|d ds IH]; intros [|i idx] H; try discriminate.
  - now exists 0.
  - destruct (IH idx) as (p & Hp); [now injection H|].
    cbn [offset]. rewrite Hp. cbn [bind]. now eexists.
Qed.

Lemma in_bounds_length (idx shp : list Z) :
  in_bounds idx shp -> length idx = length shp.
Proof. induction 1; simpl; congruence. Qed.

Lemma in_bounds_remove (k : nat) :
  forall idx shp, in_bounds idx shp ->
                  in_bounds (remove_at k idx) (remove_at k shp).
Proof.
  unfold remove_at.
  induction k as [|k IH]; intros idx shp H; destruct H; simpl;
    try constructor; auto.
  now apply IH.
Qed.

Lemma in_bounds_insert (k : nat) :
  forall idx shp,
    (k < length shp)%nat -> 0 < nth k shp 0 ->
    in_bounds idx (remove_at k shp) ->
    in_bounds (firstn k idx ++ 0 :: skipn k idx) shp.
Proof.
  unfold remove_at.
  induction k as [|k IH]; intros idx shp Hk Hpos H;
    destruct shp as [|d shp]; simpl in *; try lia.
  - constructor; [lia|assumption].
  - inversion H as [|i d' idx' shp' Hi Hrest]; subst. simpl.
    constructor; [assumption|]. apply IH; [lia|assumption|assumption].
Qed.

Lemma dot_c_strides (isz : Z) :
  forall shp idx,
    dot (c_strides shp isz) idx = isz * ravel_value shp idx.
Proof.
  induction shp as [|d ds IH]; intros [|i idx]; simpl; try lia.
  rewrite IH. lia.
Qed.

Lemma nth_error_app_here (sdone srest : list Z) (s : Z) :
  nth_error (sdone ++ s :: srest) (length sdone) = Some s.
Proof. induction sdone; simpl; auto. Qed.

Lemma compute_flat_idx_loop_after (k : nat) :
  forall (rest srest sdone : list Z) (acc : Z) (i : nat),
    (k < i)%nat -> length rest = length srest ->
    compute_flat_idx_loop (sdone ++ srest) rest (Z.of_nat k) acc i
      (length sdone)
    = Ok (acc + dot srest rest).
Proof.
  induction rest as [|x rest IH]; intros srest sdone acc i Hk Hlen.
  - destruct srest; [|discriminate]. simpl. f_equal. lia.
  - destruct srest as [|s srest]; [discriminate|].
    cbn [compute_flat_idx_loop].
    replace (Z.of_nat i =? Z.of_nat k) with false
      by (symmetry; apply Z.eqb_neq; lia).
    cbn [negb]. rewrite nth_error_app_here. cbn [of_option bind].
    rewrite (app_cons_assoc sdone srest s), <- (length_snoc sdone s).
    rewrite IH; [|lia|simpl in Hlen; lia]. simpl. f_equal. lia.
Qed.

Lemma compute_flat_idx_loop_before (k : nat) :
  forall (rest srest sdone : list Z) (acc : Z) (i : nat),
    (i <= k < i + length rest)%nat -> length rest = S (length srest) ->
    compute_flat_idx_loop (sdone ++ srest) rest (Z.of_nat k) acc i
      (length sdone)
    = Ok (acc + dot srest (remove_at (k - i) rest)).
Proof.
  induction rest as [|x rest IH]; intros srest sdone acc i Hk Hlen.
  - discriminate.
  - cbn [compute_flat_idx_loop]. destruct (Nat.eq_dec i k) as [->|Hne].
    + rewrite Z.eqb_refl, Nat.sub_diag. cbn [negb].
      rewrite compute_flat_idx_loop_after; [reflexivity|lia|].
      simpl in Hlen. lia.
    + replace (Z.of_nat i =? Z.of_nat k) with false
        by (symmetry; apply Z.eqb_neq; lia).
      cbn [negb]. destruct srest as [|s srest].
      { simpl in Hlen, Hk. destruct rest; simpl in *; [lia|discriminate]. }
      rewrite nth_error_app_here. cbn [of_option bind].
      rewrite (app_cons_assoc sdone srest s), <- (length_snoc sdone s).
      rewrite IH; [|simpl in Hk; lia|simpl in Hlen; lia].
      replace (k - i)%nat with (S (k - S i)) by lia.
      unfold remove_at. simpl. f_equal. lia.
Qed.

Lemma remove_at_length (k : nat) (l : list Z) :
  (k < length l)%nat -> S (length (remove_at k l)) = length l.
Proof.
  unfold remove_at. intros H.
  rewrite length_app, length_firstn, length_skipn. lia.
Qed.

Lemma c_strides_length (shp : list Z) (isz : Z) :
  length (c_strides shp isz) = length shp.
Proof. induction shp; simpl; congruence. Qed.

(** The offset computed in the result for an index tuple of the input is the
    position, in the result, of that tuple without the reduced axis. *)
Lemma compute_flat_idx_c_strides (shp idx : list Z) (k : nat) (isz : Z) :
  in_bounds idx shp -> (k < length shp)%nat -> isz <> 0 ->
  compute_flat_idx (c_strides (remove_at k shp) isz) isz idx (Z.of_nat k)
  = Ok (ravel_value (remove_at k shp) (remove_at k idx)).
Proof.
  intros Hb Hk Hisz. unfold compute_flat_idx.
  pose proof (in_bounds_length _ _ Hb) as Hlen.
  pose proof (compute_flat_idx_loop_before k idx
                (c_strides (remove_at k shp) isz) [] 0 0) as H.
  cbn [app length] in H. rewrite H.
  - cbn [bind]. unfold floordiv.
    destruct (Z.eqb_spec isz 0) as [|_]; [contradiction|].
    rewrite Nat.sub_0_r, dot_c_strides. f_equal.
    rewrite Z.mul_comm. now apply Z.div_mul.
  - lia.
  - rewrite c_strides_length, remove_at_length; lia.
Qed.

End BoundsFacts.

Module LoopFacts.
Import Tuple NdArray Reduce Spec IndexFacts BoundsFacts.

Section WithMemory.

Context {mem : Memory}.

Lemma list_set_length (l : list Z) (n : nat) (v : Z) :
  length (list_set l n v) = length l.
Proof.
  revert n. induction l as [|x l IH]; intros [|n]; simpl; auto.
Qed.

Lemma nth_error_in_range (l : list Z) (p : Z) :
  0 <= p < Z.of_nat (length l) ->
  exists x, nth_error l (Z.to_nat p) = Some x.
Proof.
  intros H. destruct (nth_error l (Z.to_nat p)) as [x|] eqn:E; [now exists x|].
  apply nth_error_None in E. lia.
Qed.

Lemma norm_index_in_range (p n : Z) :
  0 <= p < n -> norm_index p n = Ok p.
Proof.
  intros H. unfold norm_index.
  replace (p <? 0) with false by (symmetry; apply Z.ltb_ge; lia).
  replace ((0 <=? p) && (p <? n)) with true; [reflexivity|].
  symmetry. apply andb_true_iff. split; [apply Z.leb_le|apply Z.ltb_lt]; lia.
Qed.

Lemma same_frame_refl (r : ndarray) : same_frame r r.
Proof. repeat split. Qed.

Lemma same_frame_trans (r1 r2 r3 : ndarray) :
  same_frame r1 r2 -> same_frame r2 r3 -> same_frame r1 r3.
Proof.
  intros (A1 & A2 & A3) (B1 & B2 & B3). repeat split; congruence.
Qed.

(** A read with an index tuple of the length of the rank returns. *)
Lemma getitem_total (a : ndarray) (idx : list Z) :
  length idx = length (shape a) -> exists x, getitem a idx = Ok x.
Proof.
  intros H. unfold getitem.
  destruct (offset_total (shape a) idx H) as (p & ->). cbn [bind].
  now eexists.
Qed.

(** Within the extents it returns the cell of the contents. *)
Lemma getitem_in_bounds (a : ndarray) (idx : list Z) (x : Z) :
  in_bounds idx (shape a) ->
  nth_error (data a) (Z.to_nat (ravel_value (shape a) idx)) = Some x ->
  getitem a idx = Ok x.
Proof.
  intros Hb Hx. unfold getitem. rewrite (offset_in_bounds _ _ Hb).
  cbn [bind]. unfold read.
  pose proof (ravel_value_bounds _ _ Hb) as Hp.
  replace (ravel_value (shape a) idx <? 0) with false
    by (symmetry; apply Z.ltb_ge; lia).
  now rewrite Hx.
Qed.

Section AlongAxis.

Variable u : ufunc.
Variable shp : list Z.
Variable k : nat.
Hypothesis Hk : (k < length shp)%nat.

Let shp' := remove_at k shp.

Lemma fold_loop_total (items : list (list Z * Z)) :
  forall r : ndarray,
    (forall idx v, In (idx, v) items -> in_bounds idx shp) ->
    shape r = shp' -> itemsize (elt r) <> 0 ->
    length (data r) = Z.to_nat (prodZ shp') ->
    exists r', fold_loop u (Z.of_nat k) items r = Ok r' /\ same_frame r r'.
Proof.
  induction items as [|[idx v] items IH]; intros r Hin Hshape Hisz Hlen.
  - exists r. split; [reflexivity|apply same_frame_refl].
  - cbn [fold_loop]. unfold strides. rewrite Hshape.
    assert (Hb : in_bounds idx shp) by (apply (Hin idx v); now left).
    unfold shp'. rewrite (compute_flat_idx_c_strides _ _ _ _ Hb Hk Hisz).
    cbn [bind].
    pose proof (ravel_value_bounds _ _ (in_bounds_remove k _ _ Hb)) as Hp.
    fold shp' in Hp |- *.
    set (p := ravel_value shp' (remove_at k idx)) in *.
    assert (Hrange : 0 <= p < Z.of_nat (length (data r))) by lia.
    unfold view_get, view_set. rewrite (norm_index_in_range _ _ Hrange).
    cbn [bind].
    destruct (nth_error_in_range _ _ Hrange) as (x & ->).
    cbn [of_option bind].
    edestruct (IH {| shape := shape r; elt := elt r;
                     data := list_set (data r) (Z.to_nat p)
                               (cast (elt r) (call u x v)) |})
      as (r' & Hr' & Hframe).
    + intros idx' v' H. apply (Hin idx' v'). now right.
    + exact Hshape.
    + exact Hisz.
    + cbn [data]. now rewrite list_set_length.
    + exists r'. split; [exact Hr'|].
      eapply same_frame_trans; [|exact Hframe].
      repeat split. cbn [data]. apply list_set_length.
Qed.

Variable array : ndarray.
Hypothesis Hshape_array : shape array = shp.

(** The seeding loop returns whether or not the slice at index 0 of the
    reduced axis exists: its reads are not checked. *)
Lemma seed_loop_total (idxs : list (list Z)) :
  forall r : ndarray,
    (forall idx, In idx idxs -> in_bounds idx shp') ->
    shape r = shp' ->
    length (data r) = Z.to_nat (prodZ shp') ->
    exists r', seed_loop array (Z.of_nat k) idxs r = Ok r' /\ same_frame r r'.
Proof.
  induction idxs as [|idx idxs IH]; intros r Hin Hshape Hlen.
  - exists r. split; [reflexivity|apply same_frame_refl].
  - cbn [seed_loop].
    assert (Hb : in_bounds idx shp') by (apply Hin; now left).
    pose proof (in_bounds_length _ _ Hb) as Hli.
    pose proof (remove_at_length k shp Hk) as Hls. fold shp' in Hls.
    unfold ndim. rewrite Hshape_array, <- Hls, <- Hli.
    rewrite tuple_slice_append_insert by lia. cbn [bind].
    rewrite Nat2Z.id.
    destruct (getitem_total array (firstn k idx ++ 0 :: skipn k idx))
      as (x & ->).
    { rewrite Hshape_array, length_app. cbn [length].
      rewrite length_firstn, length_skipn. lia. }
    cbn [bind].
    unfold setitem. rewrite Hshape, (ravel_index_in_bounds _ _ Hb).
    cbn [bind].
    pose proof (ravel_value_bounds _ _ Hb) as Hq.
    replace (Z.to_nat (ravel_value shp' idx) <? length (data r))%nat
      with true by (symmetry; apply Nat.ltb_lt; lia).
    cbn [bind].
    edestruct (IH {| shape := shp'; elt := elt r;
                     data := list_set (data r)
                               (Z.to_nat (ravel_value shp' idx))
                               (cast (elt r) x) |})
      as (r' & Hr' & Hframe).
    + intros idx' H. apply Hin. now right.
    + reflexivity.
    + cbn [data]. now rewrite list_set_length.
    + exists r'. split; [exact Hr'|].
      eapply same_frame_trans; [|exact Hframe].
      repeat split; [exact (eq_sym Hshape)|]. cbn [data].
      apply list_set_length.
Qed.

End AlongAxis.

Lemma in_ndenumerate (a : ndarray) (idx : list Z) (v : Z) :
  In (idx, v) (ndenumerate a) -> in_bounds idx (shape a).
Proof.
  intros H. apply in_combine_l in H. now apply ndindex_in_bounds.
Qed.

(** [impl_nd_axis_int] on a valid axis returns an array with the shape of the
    input without that axis, with or without a seed for the fold. *)
Lemma impl_nd_axis_int_total
    (u : ufunc) (array : ndarray) (axis : Z)
    (dtype : option dtype) (initial : option Z) :
  wf_array array ->
  0 <= axis < ndim array ->
  (forall d, dtype = Some d -> wf_dtype d) ->
  exists r,
    impl_nd_axis_int u array (AxisInt axis) dtype initial = Ok r /\
    shape r = remove_at (Z.to_nat axis) (shape array).
Proof.
  intros Hwf Hax Hdt. unfold impl_nd_axis_int.
  replace ((axis <? 0) || (axis >=? ndim array)) with false
    by (symmetry; apply orb_false_iff; split;
        [apply Z.ltb_ge|rewrite Z.geb_leb; apply Z.leb_gt]; lia).
  unfold ndim in *.
  rewrite tuple_slice_remove by lia.
  set (k := Z.to_nat axis). set (shp' := remove_at k (shape array)).
  set (nb := match dtype with Some d => d | None => elt array end).
  assert (Hk : (k < length (shape array))%nat) by (unfold k; lia).
  assert (Hnb : itemsize nb <> 0).
  { unfold nb. destruct dtype as [d|].
    - specialize (Hdt d eq_refl). unfold wf_dtype in Hdt. lia.
    - destruct Hwf as (_ & _ & H). unfold wf_dtype in H. lia. }
  assert (Hseeded :
    exists r0,
      match initial, identity u with
      | None, None =>
          seed_loop array axis (ndindex shp') (np_empty shp' nb)
      | None, Some e => Ok (np_full shp' e nb)
      | Some v, _ => Ok (np_full shp' v nb)
      end = Ok r0 /\
      shape r0 = shp' /\ elt r0 = nb /\
      length (data r0) = Z.to_nat (prodZ shp')).
  { destruct initial as [v|].
    - eexists. split; [reflexivity|]. simpl. now rewrite repeat_length.
    - destruct (identity u) as [e|].
      + eexists. split; [reflexivity|]. simpl. now rewrite repeat_length.
      + rewrite <- (Z2Nat.id axis) by lia. fold k.
        destruct (seed_loop_total (shape array) k Hk array eq_refl
                    (ndindex shp') (np_empty shp' nb))
          as (r0 & Hr0 & Hs & He & Hl).
        * intros idx. apply ndindex_in_bounds.
        * reflexivity.
        * simpl. now rewrite repeat_length.
        * exists r0. split; [exact Hr0|]. simpl in *.
          rewrite Hs, He, Hl, repeat_length. auto. }
  destruct Hseeded as (r0 & -> & Hs0 & He0 & Hl0). cbn [bind].
  rewrite <- (Z2Nat.id axis) by lia. fold k.
  destruct (fold_loop_total u (shape array) k Hk (ndenumerate array) r0)
    as (r & Hr & Hs & _).
  - intros idx v. apply in_ndenumerate.
  - exact Hs0.
  - now rewrite He0.
  - exact Hl0.
  - exists r. split; [exact Hr|]. now rewrite Hs.
Qed.

End WithMemory.

End LoopFacts.

Module ReduceFacts.
Import Tuple NdArray Reduce Spec IndexFacts BoundsFacts LoopFacts.

Section WithMemory.

Context {mem : Memory}.

Lemma getitem_1d (a : ndarray) (sz : Z) (pre rest : list Z) (x : Z) :
  shape a = [sz] -> data a = pre ++ x :: rest ->
  Z.of_nat (length pre) < sz ->
  getitem a [Z.of_nat (length pre)] = Ok x.
Proof.
  intros Hs Hd Hlt. apply getitem_in_bounds; rewrite Hs.
  - repeat constructor; lia.
  - cbn [ravel_value prodZ fold_right].
    replace (Z.to_nat (Z.of_nat (length pre) * 1 + 0)) with (length pre)
      by lia.
    rewrite Hd. clear. induction pre; simpl; auto.
Qed.

(** The read [array[0]] of a 1-dimensional array: its first element, or, of
    an empty array, what lies at the start of its buffer. *)
Lemma getitem_first (a : ndarray) (sz : Z) :
  shape a = [sz] -> getitem a [0] = Ok (read a 0).
Proof.
  intros Hs. unfold getitem. rewrite Hs. reflexivity.
Qed.

Lemma read_first (a : ndarray) (x : Z) (rest : list Z) :
  data a = x :: rest -> read a 0 = x.
Proof. intros Hd. unfold read. now rewrite Hd. Qed.

Lemma impl_1d_loop_fold (u : ufunc) (a : ndarray) (sz : Z) :
  shape a = [sz] -> sz = Z.of_nat (length (data a)) ->
  forall (rest pre : list Z) (r : Z),
    data a = pre ++ rest ->
    impl_1d_loop u a (map Z.of_nat (seq (length pre) (length rest))) r
    = Ok (fold_left (call u) rest r).
Proof.
  intros Hs Hsz. induction rest as [|x rest IH]; intros pre r Hd.
  - reflexivity.
  - cbn [length seq map impl_1d_loop].
    rewrite (getitem_1d a sz pre rest x Hs Hd).
    + cbn [bind]. rewrite <- (length_snoc pre x).
      rewrite IH; [reflexivity|]. now rewrite <- app_assoc.
    + rewrite Hsz, Hd, length_app. simpl. lia.
Qed.

(** [impl_1d] is a left fold over all the elements, the first one included,
    from the seed [initial], else the identity, else what the read
    [array[0]] returns: the first element, if there is one. *)
Lemma impl_1d_fold (u : ufunc) (a : ndarray) (sz : Z) (initial : option Z) :
  wf_array a -> shape a = [sz] ->
  impl_1d u a initial
  = Ok (fold_left (call u) (data a)
          (seed initial (identity u) (read a 0))).
Proof.
  intros (Hnn & Hlen & _) Hs. rewrite Hs in Hnn, Hlen.
  simpl in Hlen. inversion Hnn as [|d ds Hsz _]; subst.
  assert (Hsz' : sz = Z.of_nat (length (data a))) by lia.
  assert (Hloop : forall r,
             impl_1d_loop u a (zrange sz) r
             = Ok (fold_left (call u) (data a) r)).
  { intros r. unfold zrange.
    replace (Z.to_nat sz) with (length (data a)) by lia.
    now apply (impl_1d_loop_fold u a sz Hs Hsz' (data a) []). }
  unfold impl_1d. rewrite Hs. cbn [nth_error of_option].
  destruct initial as [v|]; [cbn [bind seed]; rewrite Hloop;
                             now destruct (identity u)|].
  destruct (identity u) as [e|]; [cbn [bind seed]; now rewrite Hloop|].
  rewrite (getitem_first a sz Hs). cbn [bind seed]. apply Hloop.
Qed.

Lemma reduce_depth_S (n : nat) (u : ufunc) (array : value) (axis : axis_val)
    (dtype : option dtype) (initial : option Z) :
  reduce_depth (S n) u array axis dtype initial
  = (chosen <- ol_reduce u (typeof array) (typeof_axis axis)
                 (typeof_opt TOther dtype) (typeof_opt TInteger initial) ;;
     match chosen, array with
     | Some Impl1d, VArray a => r <- impl_1d u a initial ;; Ok (VScalar r)
     | Some ImplNdAxisInt, VArray a =>
         r <- impl_nd_axis_int u a axis dtype initial ;; Ok (VArray r)
     | Some ImplNdAxisTuple, VArray a =>
         match axis with
         | AxisTuple t =>
             impl_nd_axis_tuple (reduce_depth n u) a t dtype initial
         | _ => Raise TypingError
         end
     | _, _ => Raise TypingError
     end).
Proof. reflexivity. Qed.

(** A call with an integer axis never calls back: its nesting is 1. *)
Lemma reduce_depth_axis_int (n : nat) (u : ufunc) (v : value) (k : Z)
    (dtype : option dtype) (initial : option Z) :
  reduce_depth (S n) u v (AxisInt k) dtype initial
  = reduce u v (AxisInt k) dtype initial.
Proof.
  unfold reduce. cbn [axis_depth reduce_depth].
  destruct (ol_reduce u (typeof v) (typeof_axis (AxisInt k))
              (typeof_opt TOther dtype) (typeof_opt TInteger initial))
    as [[[]|]|]; cbn [bind]; destruct v; reflexivity.
Qed.

(** A one-element tuple of axes is that axis. *)
Lemma reduce_one_tuple (u : ufunc) (v : value) (k : Z)
    (dtype : option dtype) (initial : option Z) :
  reduce u v (AxisTuple [k]) dtype initial
  = reduce u v (AxisInt k) dtype initial.
Proof.
  destruct v as [z|a]; [reflexivity|].
  unfold reduce at 1. cbn [axis_depth length]. rewrite reduce_depth_S.
  unfold ol_reduce at 1.
  cbn [typeof typeof_axis length axis_int axis_int_tuple axis_tuple_size
         is_integer Nat.eqb andb orb negb].
  rewrite andb_false_r.
  destruct (length (shape a) =? 1)%nat eqn:Hnd; cbn [bind].
  - unfold reduce. cbn [axis_depth reduce_depth]. unfold ol_reduce.
    cbn [typeof typeof_axis axis_int is_integer orb negb].
    now rewrite andb_false_r, Hnd.
  - unfold impl_nd_axis_tuple, find_min. cbn [nth_error of_option bind].
    cbn [find_min_loop]. rewrite Z.ltb_irrefl, reduce_depth_axis_int.
    cbn [length Nat.eqb].
    destruct (reduce u (VArray a) (AxisInt k) dtype initial); reflexivity.
Qed.

(** X23.  The two-axis decomposition, for a function with an identity
    element and an array whose rank is not 1: reducing over [(i, j)] is
    reducing over the smaller of the two, with the [dtype] and the [initial]
    of the call, and then over the larger one less one, with neither.  The
    two axes are not compared: with [i = j] the second reduction is over
    [i - 1]. *)
Lemma reduce_two_axes (u : ufunc) (a : ndarray) (i j : Z)
    (dtype : option dtype) (initial : option Z) :
  identity u <> None -> length (shape a) <> 1%nat ->
  reduce u (VArray a) (AxisTuple [i; j]) dtype initial
  = (r <- reduce u (VArray a) (AxisInt (Z.min i j)) dtype initial ;;
     reduce u r (AxisInt (Z.max i j - 1)) None None).
Proof.
  intros Hid Hnd. unfold reduce at 1.
  cbn [axis_depth length]. rewrite reduce_depth_S.
  unfold ol_reduce. cbn [typeof typeof_axis length axis_int axis_int_tuple
                           axis_tuple_size is_integer].
  destruct (identity u) as [e|]; [|contradiction]. cbn [andb].
  apply Nat.eqb_neq in Hnd. rewrite Hnd. cbn [bind].
  unfold impl_nd_axis_tuple, find_min. cbn [nth_error of_option bind].
  cbn [find_min_loop]. rewrite Z.ltb_irrefl.
  destruct (Z.ltb_spec j i) as [Hlt|Hge].
  - rewrite Z.min_r, Z.max_l by lia. rewrite reduce_depth_axis_int.
    destruct (reduce u (VArray a) (AxisInt j) dtype initial) as [r|];
      [|reflexivity].
    cbn [bind length Nat.eqb].
    change ((1 + 1) mod 2)%nat with 0%nat.
    cbn [nth_error of_option bind]. apply reduce_depth_axis_int.
  - rewrite Z.min_l, Z.max_r by lia. rewrite reduce_depth_axis_int.
    destruct (reduce u (VArray a) (AxisInt i) dtype initial) as [r|];
      [|reflexivity].
    cbn [bind length Nat.eqb].
    change ((0 + 1) mod 2)%nat with 1%nat.
    cbn [nth_error of_option bind]. apply reduce_depth_axis_int.
Qed.

End WithMemory.

End ReduceFacts.

Module ReduceClaims.
Import Tuple NdArray Reduce Spec IndexFacts BoundsFacts LoopFacts ReduceFacts.

Section WithMemory.

Context {mem : Memory}.

(** C6.  With [add], whose identity is 0, reducing the 1-dimensional 32-bit
    integer array [1, 2, 3, 4] returns 10. *)
Theorem reduce_add_1234 :
  reduce Scenario.add (VArray Scenario.array_1234) AxisOmitted None None
  = Ok (VScalar 10).
Proof. reflexivity. Qed.

(** C8.  With [max], which has no identity, reducing [[1, 5, 2], [4, 0, 6]]
    of shape (2, 3) over axis 0 returns [4, 5, 6] of shape (3,). *)
Theorem reduce_max_axis_0 :
  reduce Scenario.maximum (VArray Scenario.array_2x3) (AxisInt 0) None None
  = Ok (VArray {| shape := [3]; elt := Scenario.int64;
                  data := [4; 5; 6] |}).
Proof. reflexivity. Qed.

(** C1.  Without identity and without [initial] the first element seeds the
    fold and is then folded in again: for subtraction on [5, 1] the code
    returns (5 - 5) - 1 = -1, where the fold that starts at the second
    element gives 5 - 1 = 4. *)
Theorem reduce_1d_first_element_folded_again :
  reduce Scenario.subtract (VArray Scenario.array_51) (AxisInt 0) None None
  = Ok (VScalar (-1)) /\
  fold_left (call Scenario.subtract) (tl (data Scenario.array_51))
    (hd 0 (data Scenario.array_51)) = 4.
Proof. split; reflexivity. Qed.

(** The same for every 1-dimensional array: [reduce] folds over all the
    elements from its seed, so an element that is the seed is folded twice. *)
Lemma reduce_1d_fold (u : ufunc) (a : ndarray) (sz : Z) (k : Z)
    (dtype : option dtype) (initial : option Z) (x : Z) (rest : list Z) :
  wf_array a -> shape a = [sz] -> data a = x :: rest ->
  reduce u (VArray a) (AxisInt k) dtype initial
  = Ok (VScalar (fold_left (call u) (x :: rest)
                   (seed initial (identity u) x))).
Proof.
  intros Hwf Hs Hd. unfold reduce. cbn [axis_depth].
  rewrite reduce_depth_S. unfold ol_reduce.
  cbn [typeof typeof_axis axis_int is_integer orb negb].
  rewrite andb_false_r, Hs. cbn [length Nat.eqb bind].
  rewrite (impl_1d_fold u a sz initial Hwf Hs).
  now rewrite (read_first a x rest Hd), Hd.
Qed.

(** C2.  With three axes the call back does not go to the remaining axes less
    one: on an array of shape (2, 1, 1, 1), [axis=(1, 2, 3)] with [add]
    returns [3] of shape (1,), having reduced the axes 1, 0 and 3, where
    eliminating the axes 1, 2 and 3 one after the other returns [1, 2] of
    shape (2,). *)
Theorem reduce_three_axes_wrong_axes :
  reduce Scenario.add (VArray Scenario.array_2x1x1x1) (AxisTuple [1; 2; 3])
    None None
  = Ok (VArray {| shape := [1]; elt := Scenario.int64; data := [3] |}) /\
  (r1 <- reduce Scenario.add (VArray Scenario.array_2x1x1x1) (AxisInt 1)
           None None ;;
   r2 <- reduce Scenario.add r1 (AxisInt 1) None None ;;
   reduce Scenario.add r2 (AxisInt 1) None None)
  = Ok (VArray {| shape := [2]; elt := Scenario.int64; data := [1; 2] |}).
Proof. split; reflexivity. Qed.

(** With no element along the reduced axis and no other seed, the slice
    at index 0 does not exist; the seeding loop reads it all the same, the
    reads not being checked, and the result has the cell of the shape
    without the axis, with what the read found there. *)
Lemma reduce_empty_axis_reads_beyond :
  reduce Scenario.maximum (VArray Scenario.array_0x1) (AxisInt 0) None None
  = Ok (VArray {| shape := [1]; elt := Scenario.int64;
                  data := [Scenario.wrap 64 (beyond Scenario.array_0x1 0)] |}).
Proof. reflexivity. Qed.

(** C7.  For a well-formed array and a valid integer axis [k], [reduce]
    returns a result whose shape is the shape of the array without position
    [k] (for an array of rank 1 the result is a scalar, whose shape is
    empty); and reducing over the one-element tuple [(k,)] is reducing over
    [k]. *)
Theorem reduce_axis_shape
    (u : ufunc) (a : ndarray) (k : Z)
    (dtype : option dtype) (initial : option Z) :
  wf_array a ->
  0 <= k < ndim a ->
  (forall d, dtype = Some d -> wf_dtype d) ->
  (exists r,
      reduce u (VArray a) (AxisInt k) dtype initial = Ok r /\
      value_shape r = remove_at (Z.to_nat k) (shape a)) /\
  reduce u (VArray a) (AxisTuple [k]) dtype initial
  = reduce u (VArray a) (AxisInt k) dtype initial.
Proof.
  intros Hwf Hk Hdt. split; [|apply reduce_one_tuple].
  unfold reduce. cbn [axis_depth]. rewrite reduce_depth_S. unfold ol_reduce.
  cbn [typeof typeof_axis axis_int axis_int_tuple is_integer orb negb
         axis_default_or_integer].
  rewrite andb_false_r.
  destruct (length (shape a) =? 1)%nat eqn:Hnd; cbn [bind].
  - apply Nat.eqb_eq in Hnd.
    destruct (shape a) as [|sz [|]] eqn:Hs; try discriminate.
    unfold ndim in Hk. rewrite Hs in Hk. simpl in Hk.
    assert (k = 0) by lia. subst k.
    rewrite (impl_1d_fold u a sz initial Hwf Hs).
    eexists; split; reflexivity.
  - destruct (impl_nd_axis_int_total u a k dtype initial Hwf Hk Hdt)
      as (r & -> & Hr).
    exists (VArray r). split; [reflexivity|exact Hr].
Qed.

End WithMemory.

(** The examples run with [Scenario.positions_beyond] outside the buffers. *)
#[local] Existing Instance Scenario.positions_beyond.

(** The array of shape (0, 1) has no element along axis 0, and [max] has no
    identity: the result has the shape (1,). *)
Lemma reduce_axis_shape_witness :
  exists r,
    reduce Scenario.maximum (VArray Scenario.array_0x1) (AxisInt 0) None None
    = Ok r /\
    value_shape r = [1].
Proof.
  apply (reduce_axis_shape Scenario.maximum Scenario.array_0x1 0 None None).
  - split; [|split; [reflexivity|unfold wf_dtype; simpl; lia]].
    simpl. repeat (constructor; [lia|]). constructor.
  - unfold ndim. simpl. lia.
  - discriminate.
Defined.

End ReduceClaims.

(** * The tuple helpers of [reduce] *)

Module TupleLaws.
Import Tuple NdArray Spec IndexFacts BoundsFacts.

(** X1.  [tuple_slice] on a tuple of the rank of the array and a position of
    that tuple returns the tuple without the item at that position, which is
    one item shorter. *)
Theorem tuple_slice_drops_position (tup : list Z) (pos : Z) :
  0 <= pos < Z.of_nat (length tup) ->
  tuple_slice (Z.of_nat (length tup)) tup pos
  = firstn (Z.to_nat pos) tup ++ skipn (S (Z.to_nat pos)) tup /\
  S (length (tuple_slice (Z.of_nat (length tup)) tup pos)) = length tup.
Proof.
  intros Hpos. rewrite tuple_slice_remove by exact Hpos. split.
  - reflexivity.
  - apply remove_at_length. lia.
Qed.

Lemma tuple_slice_drops_position_witness :
  tuple_slice 3 [7; 8; 9] 1 = [7; 9].
Proof.
  apply (tuple_slice_drops_position [7; 8; 9] 1). simpl. lia.
Defined.

(** X2.  [tuple_slice_append] on a tuple one shorter than the rank inserts
    the value at the position: the items from that position on move one
    place up and none is replaced. *)
Theorem tuple_slice_append_inserts (tup : list Z) (pos val : Z) :
  0 <= pos <= Z.of_nat (length tup) ->
  exists s,
    tuple_slice_append (Z.of_nat (S (length tup))) tup pos val = Ok s /\
    s = firstn (Z.to_nat pos) tup ++ val :: skipn (Z.to_nat pos) tup /\
    length s = S (length tup) /\
    nth_error s (Z.to_nat pos) = Some val.
Proof.
  intros Hpos. eexists. split; [now apply tuple_slice_append_insert|].
  split; [reflexivity|]. split.
  - rewrite length_app. cbn [length].
    rewrite length_firstn, length_skipn. lia.
  - rewrite nth_error_app2 by (rewrite length_firstn; lia).
    rewrite length_firstn.
    replace (Z.to_nat pos - Nat.min (Z.to_nat pos) (length tup))%nat
      with 0%nat by lia.
    reflexivity.
Qed.

Lemma tuple_slice_append_inserts_witness :
  exists s,
    tuple_slice_append 3 [7; 9] 1 0 = Ok s /\
    s = [7; 0; 9] /\ length s = 3%nat /\ nth_error s 1 = Some 0.
Proof.
  apply (tuple_slice_append_inserts [7; 9] 1 0). simpl. lia.
Defined.

Lemma remove_at_insert (k : nat) (val : Z) :
  forall tup : list Z,
    (k <= length tup)%nat ->
    remove_at k (firstn k tup ++ val :: skipn k tup) = tup.
Proof.
  unfold remove_at.
  induction k as [|k IH]; intros [|x tup] H; simpl in *; try lia;
    try reflexivity.
  f_equal. apply IH. lia.
Qed.

Lemma insert_remove_at (k : nat) :
  forall tup : list Z,
    (k < length tup)%nat ->
    firstn k (remove_at k tup) ++ nth k tup 0 :: skipn k (remove_at k tup)
    = tup.
Proof.
  unfold remove_at.
  induction k as [|k IH]; intros [|x tup] H; simpl in *; try lia;
    try reflexivity.
  f_equal. apply IH. lia.
Qed.

(** X3.  The two helpers undo each other: dropping the position at which a
    value was inserted gives the tuple back, and inserting at a position the
    item that was dropped there gives the tuple back. *)
Theorem tuple_slice_append_round_trip (ndim : nat) (tup : list Z) (pos : Z) :
  length tup = ndim ->
  0 <= pos < Z.of_nat ndim ->
  (forall (idx : list Z) (val : Z),
      S (length idx) = ndim ->
      exists s,
        tuple_slice_append (Z.of_nat ndim) idx pos val = Ok s /\
        tuple_slice (Z.of_nat ndim) s pos = idx) /\
  tuple_slice_append (Z.of_nat ndim) (tuple_slice (Z.of_nat ndim) tup pos) pos
    (nth (Z.to_nat pos) tup 0)
  = Ok tup.
Proof.
  intros Hlen Hpos. split.
  - intros idx val Hidx. subst ndim. rewrite <- Hidx.
    rewrite tuple_slice_append_insert by lia.
    eexists. split; [reflexivity|].
    set (s := firstn (Z.to_nat pos) idx ++ val :: skipn (Z.to_nat pos) idx).
    assert (Hs : length s = S (length idx)).
    { unfold s. rewrite length_app. cbn [length].
      rewrite length_firstn, length_skipn. lia. }
    rewrite <- Hs, tuple_slice_remove by lia.
    unfold s. apply remove_at_insert. lia.
  - subst ndim. rewrite tuple_slice_remove by lia.
    set (k := Z.to_nat pos).
    assert (Hk : (k < length tup)%nat) by (unfold k; lia).
    pose proof (remove_at_length k tup Hk) as Hr.
    rewrite <- Hr, tuple_slice_append_insert by lia.
    fold k. now rewrite insert_remove_at.
Qed.

Lemma tuple_slice_append_round_trip_witness :
  (forall (idx : list Z) (val : Z),
      S (length idx) = 3%nat ->
      exists s,
        tuple_slice_append 3 idx 1 val = Ok s /\ tuple_slice 3 s 1 = idx) /\
  tuple_slice_append 3 (tuple_slice 3 [7; 8; 9] 1) 1 8 = Ok [7; 8; 9].
Proof.
  apply (tuple_slice_append_round_trip 3 [7; 8; 9] 1); [reflexivity|lia].
Defined.

Lemma find_min_loop_inv (tup : list Z) :
  forall (rest : list Z) (i idx : nat) (e : Z),
    skipn i tup = rest ->
    nth_error tup idx = Some e ->
    (forall j, (j < i)%nat -> e <= nth j tup 0) ->
    (forall j, (j < idx)%nat -> e < nth j tup 0) ->
    nth_error tup (fst (find_min_loop rest i idx e))
    = Some (snd (find_min_loop rest i idx e)) /\
    (forall j, (j < length tup)%nat ->
               snd (find_min_loop rest i idx e) <= nth j tup 0) /\
    (forall j, (j < fst (find_min_loop rest i idx e))%nat ->
               snd (find_min_loop rest i idx e) < nth j tup 0).
Proof.
  induction rest as [|x rest IH]; intros i idx e Hskip Hnth Hle Hlt.
  - cbn [find_min_loop fst snd]. split; [exact Hnth|]. split; [|exact Hlt].
    intros j Hj. apply Hle.
    assert (length (skipn i tup) = 0%nat) by now rewrite Hskip.
    rewrite length_skipn in H. lia.
  - cbn [find_min_loop].
    assert (Hi : nth_error tup i = Some x).
    { rewrite <- (firstn_skipn i tup) at 1. rewrite Hskip.
      assert (Hl : length (firstn i tup) = i).
      { rewrite length_firstn.
        assert (length (skipn i tup) = S (length rest)) by now rewrite Hskip.
        rewrite length_skipn in H. lia. }
      rewrite nth_error_app2 by lia. rewrite Hl, Nat.sub_diag. reflexivity. }
    assert (Hx : nth i tup 0 = x) by now apply nth_error_nth.
    assert (Hskip' : skipn (S i) tup = rest).
    { pose proof (skipn_nth_error tup i x Hi) as H.
      rewrite Hskip in H. now injection H. }
    destruct (Z.ltb_spec x e) as [Hxe|Hxe].
    + apply IH; [exact Hskip'|exact Hi| |].
      * intros j Hj. destruct (Nat.eq_dec j i) as [->|Hne]; [lia|].
        specialize (Hle j). lia.
      * intros j Hj. specialize (Hle j). lia.
    + apply IH; [exact Hskip'|exact Hnth| |exact Hlt].
      intros j Hj. destruct (Nat.eq_dec j i) as [->|Hne]; [lia|].
      apply Hle. lia.
Qed.

(** X4.  On a tuple that is not empty [find_min] returns a position and the
    item there; no item of the tuple is smaller, and every item before that
    position is greater: of several smallest items the first is found. *)
Theorem find_min_first_minimum (tup : list Z) :
  tup <> [] ->
  exists (idx : nat) (e : Z),
    find_min tup = Ok (idx, e) /\
    nth_error tup idx = Some e /\
    Forall (fun x => e <= x) tup /\
    (forall j, (j < idx)%nat -> e < nth j tup 0).
Proof.
  intros Hne. destruct tup as [|x tup]; [contradiction|].
  unfold find_min. cbn [nth_error of_option bind].
  destruct (find_min_loop_inv (x :: tup) (x :: tup) 0 0 x) as (H1 & H2 & H3);
    try reflexivity; try (intros j Hj; lia).
  destruct (find_min_loop (x :: tup) 0 0 x) as [idx e] eqn:E.
  cbn [fst snd] in *. exists idx, e. split; [reflexivity|].
  split; [exact H1|]. split; [|exact H3].
  apply Forall_forall. intros y Hy.
  apply (In_nth _ _ 0) in Hy as (j & Hj & <-). now apply H2.
Qed.

Lemma find_min_first_minimum_witness :
  exists (idx : nat) (e : Z),
    find_min [3; 1; 2; 1] = Ok (idx, e) /\
    nth_error [3; 1; 2; 1] idx = Some e /\
    Forall (fun x => e <= x) [3; 1; 2; 1] /\
    (forall j, (j < idx)%nat -> e < nth j [3; 1; 2; 1] 0).
Proof.
  apply (find_min_first_minimum [3; 1; 2; 1]). discriminate.
Defined.

End TupleLaws.

(** * The axis argument of [reduce] *)

Module AxisFacts.
Import Tuple NdArray Reduce Spec IndexFacts BoundsFacts LoopFacts ReduceFacts.

Section WithMemory.

Context {mem : Memory}.

(** On a 1-dimensional array the typing function chooses [impl_1d] for every
    axis that passes the guard. *)
Lemma reduce_1d_impl (u : ufunc) (a : ndarray) (axis : axis_val)
    (dtype : option dtype) (initial : option Z) :
  length (shape a) = 1%nat ->
  (identity u = None -> single_axis (typeof_axis axis)) ->
  reduce u (VArray a) axis dtype initial
  = (r <- impl_1d u a initial ;; Ok (VScalar r)).
Proof.
  intros Hnd Hax. unfold reduce.
  destruct (axis_depth axis) as [|n] eqn:Hd;
    [destruct axis; discriminate|].
  rewrite reduce_depth_S. unfold ol_reduce. cbn [typeof]. rewrite Hnd.
  destruct (identity u) as [e|] eqn:Hid.
  - reflexivity.
  - specialize (Hax eq_refl). apply TypingFacts.single_axis_guard in Hax.
    rewrite Hax. reflexivity.
Qed.

(** X5.  On a 1-dimensional array, [reduce] with an integer axis is the left
    fold of the function over all the elements in increasing index order,
    from [initial] if given, else the identity, else the first element; an
    array without elements gives the seed back.  Neither the value of the
    axis nor [dtype] is looked at. *)
Theorem reduce_1d_left_fold (u : ufunc) (a : ndarray) (k : Z)
    (dtype : option dtype) (initial : option Z) :
  wf_array a -> length (shape a) = 1%nat ->
  seeded initial (identity u) = true \/ data a <> [] ->
  reduce u (VArray a) (AxisInt k) dtype initial
  = Ok (VScalar (fold_left (call u) (data a)
                   (seed initial (identity u) (hd 0 (data a))))).
Proof.
  intros Hwf Hnd Hseed.
  rewrite reduce_1d_impl; [|exact Hnd|intros _; now constructor].
  destruct (shape a) as [|sz [|]] eqn:Hs; try discriminate.
  rewrite (impl_1d_fold u a sz initial Hwf Hs). cbn [bind].
  destruct initial as [v|]; [reflexivity|].
  destruct (identity u) as [e|]; [reflexivity|].
  destruct Hseed as [H|H]; [discriminate|].
  destruct (data a) as [|x rest] eqn:Hd; [contradiction|].
  now rewrite (read_first a x rest Hd).
Qed.

(** X6.  For a function without identity that is idempotent, as the maximum
    and the minimum are, folding the first element in again changes nothing:
    on a 1-dimensional array that is not empty [reduce] without [initial] is
    the left fold from the first element over the elements after it. *)
Theorem reduce_1d_idempotent (u : ufunc) (a : ndarray) (k : Z)
    (dtype : option dtype) :
  wf_array a -> length (shape a) = 1%nat ->
  identity u = None -> data a <> [] ->
  (forall x, call u x x = x) ->
  reduce u (VArray a) (AxisInt k) dtype None
  = Ok (VScalar (fold_left (call u) (tl (data a)) (hd 0 (data a)))).
Proof.
  intros Hwf Hnd Hid Hne Hidem.
  rewrite reduce_1d_impl; [|exact Hnd|intros _; now constructor].
  destruct (shape a) as [|sz [|]] eqn:Hs; try discriminate.
  rewrite (impl_1d_fold u a sz None Hwf Hs), Hid.
  destruct (data a) as [|x rest] eqn:Hd; [contradiction|].
  rewrite (read_first a x rest Hd).
  cbn [bind seed hd tl fold_left]. now rewrite Hidem.
Qed.

(** X7.  For a function with an identity element and a 1-dimensional array,
    every [axis] argument (left out, an integer in range or not, a tuple of
    any length, [None]) and every [dtype] give the result of [axis=0]: no
    axis is rejected. *)
Theorem reduce_1d_ignores_axis (u : ufunc) (a : ndarray) (axis : axis_val)
    (dtype : option dtype) (initial : option Z) :
  identity u <> None -> length (shape a) = 1%nat ->
  reduce u (VArray a) axis dtype initial
  = reduce u (VArray a) (AxisInt 0) None initial.
Proof.
  intros Hid Hnd.
  rewrite !reduce_1d_impl; try exact Hnd; try reflexivity;
    intros H; contradiction.
Qed.

(** X8.  On an array of rank 2 or more, an integer axis outside [0, ndim)
    raises the invalid-axis error, whatever the function, [dtype] and
    [initial] are: a negative axis does not count from the end. *)
Theorem reduce_invalid_axis (u : ufunc) (a : ndarray) (k : Z)
    (dtype : option dtype) (initial : option Z) :
  (2 <= length (shape a))%nat ->
  k < 0 \/ ndim a <= k ->
  reduce u (VArray a) (AxisInt k) dtype initial
  = Raise (ValueError "Invalid axis").
Proof.
  intros Hnd Hk. unfold reduce. cbn [axis_depth]. rewrite reduce_depth_S.
  unfold ol_reduce.
  cbn [typeof typeof_axis axis_int axis_int_tuple is_integer orb negb
         axis_default_or_integer].
  rewrite andb_false_r.
  replace (length (shape a) =? 1)%nat with false
    by (symmetry; apply Nat.eqb_neq; lia).
  cbn [bind].
  unfold impl_nd_axis_int.
  replace ((k <? 0) || (k >=? ndim a)) with true; [reflexivity|].
  symmetry. apply orb_true_iff. destruct Hk as [Hk|Hk].
  - left. now apply Z.ltb_lt.
  - right. rewrite Z.geb_leb. now apply Z.leb_le.
Qed.

(** X9.  An [axis] that the call leaves out is axis 0 for a function with an
    identity element; for a function without one the call is rejected as a
    reduction that is not reorderable, whatever the array: such a function
    has to be given its axis. *)
Theorem reduce_axis_left_out (u : ufunc) (a : ndarray)
    (dtype : option dtype) (initial : option Z) :
  (identity u <> None ->
   reduce u (VArray a) AxisOmitted dtype initial
   = reduce u (VArray a) (AxisInt 0) dtype initial) /\
  (identity u = None ->
   reduce u (VArray a) AxisOmitted dtype initial
   = Raise (NumbaTypeError (msg_not_reorderable (name u)))).
Proof.
  split; intros Hid; unfold reduce; cbn [axis_depth];
    rewrite !reduce_depth_S; unfold ol_reduce;
    cbn [typeof typeof_axis axis_int axis_int_tuple is_integer orb negb
           axis_default_or_integer andb].
  - destruct (identity u) as [e|]; [|contradiction]. cbn [andb].
    destruct (length (shape a) =? 1)%nat; reflexivity.
  - rewrite Hid. reflexivity.
Qed.

(** X10.  [axis=None] never reaches [impl_nd_axis_int]: on an array whose rank
    is not 1 the typing function rejects the call or finds no implementation
    for it, so the error that the axis must be specified is never raised. *)
Theorem reduce_axis_none_not_typed (u : ufunc) (a : ndarray)
    (dtype : option dtype) (initial : option Z) :
  length (shape a) <> 1%nat ->
  reduce u (VArray a) AxisNone dtype initial
  = match identity u with
    | None => Raise (NumbaTypeError (msg_not_reorderable (name u)))
    | Some _ => Raise TypingError
    end.
Proof.
  intros Hnd. unfold reduce. cbn [axis_depth]. rewrite reduce_depth_S.
  unfold ol_reduce.
  cbn [typeof typeof_axis axis_int axis_int_tuple is_integer orb negb
         axis_default_or_integer andb].
  apply Nat.eqb_neq in Hnd. rewrite Hnd.
  destruct (identity u); reflexivity.
Qed.

(** ** The calls back from [impl_nd_axis_tuple] *)

Lemma tuple_setitem_length (tup : list Z) (i : nat) (v : Z) :
  length (tuple_setitem tup i v) = length tup.
Proof.
  revert i. induction tup as [|x tup IH]; intros [|i]; simpl; auto.
Qed.

Lemma axis_rest_loop_length (min_idx : nat) (axis : list Z) :
  forall (range : list nat) (ax ax' : list Z),
    axis_rest_loop range min_idx axis ax = Ok ax' -> length ax' = length ax.
Proof.
  induction range as [|i range IH]; intros ax ax' H; cbn [axis_rest_loop] in H.
  - now injection H as <-.
  - destruct (negb (i =? min_idx)%nat).
    + destruct (nth_error axis i) as [e|]; [|discriminate].
      cbn [of_option bind] in H. apply IH in H.
      now rewrite tuple_setitem_length in H.
    + now apply IH.
Qed.

(** Two ways of calling back that agree on an integer axis and on the tuples
    one shorter give the same [impl_nd_axis_tuple]. *)
Lemma impl_nd_axis_tuple_ext
    (cb1 cb2 : value -> axis_val -> option dtype -> option Z -> result value)
    (a : ndarray) (t : list Z) (dtype : option dtype) (initial : option Z) :
  (t <> [] ->
   forall v k dt init, cb1 v (AxisInt k) dt init = cb2 v (AxisInt k) dt init) ->
  (forall v ax dt init,
      S (length ax) = length t ->
      cb1 v (AxisTuple ax) dt init = cb2 v (AxisTuple ax) dt init) ->
  impl_nd_axis_tuple cb1 a t dtype initial
  = impl_nd_axis_tuple cb2 a t dtype initial.
Proof.
  intros Hint Htup. unfold impl_nd_axis_tuple.
  destruct (find_min t) as [[min_idx min_elem]|e] eqn:Hm; [|reflexivity].
  assert (Hne : t <> []) by (intros ->; discriminate).
  specialize (Hint Hne).
  cbn [bind]. rewrite Hint.
  destruct (cb2 (VArray a) (AxisInt min_elem) dtype initial) as [r|e];
    [|reflexivity].
  cbn [bind]. destruct (length t =? 1)%nat; [reflexivity|].
  destruct (length t =? 2)%nat.
  - destruct (nth_error t ((min_idx + 1) mod 2)) as [other|]; [|reflexivity].
    cbn [of_option bind]. apply Hint.
  - destruct (axis_rest_loop
                (seq 0 (length (zeros (Z.of_nat (length t) - 1))))
                min_idx t (zeros (Z.of_nat (length t) - 1)))
      as [ax|e] eqn:Hax; [|reflexivity].
    cbn [bind]. apply Htup.
    apply axis_rest_loop_length in Hax. rewrite Hax.
    unfold zeros. rewrite repeat_length.
    destruct t; [discriminate|]. cbn [length]. lia.
Qed.

Lemma reduce_depth_enough (u : ufunc) :
  forall (n m : nat), (m <= n)%nat ->
    forall (v : value) (axis : axis_val) (dtype : option dtype)
           (initial : option Z),
      (axis_depth axis <= m)%nat ->
      reduce_depth m u v axis dtype initial
      = reduce u v axis dtype initial.
Proof.
  induction n as [|n IH]; intros m Hm v axis dtype initial Hd.
  - destruct axis; cbn [axis_depth] in Hd; lia.
  - destruct m as [|m]; [destruct axis; cbn [axis_depth] in Hd; lia|].
    unfold reduce.
    destruct axis as [|k|t|]; cbn [axis_depth] in *;
      try (rewrite !reduce_depth_S;
           destruct (ol_reduce u (typeof v) _ _ _) as [[[]|]|]; cbn [bind];
           destruct v; reflexivity).
    rewrite !reduce_depth_S.
    destruct (ol_reduce u (typeof v) (typeof_axis (AxisTuple t)) _ _)
      as [[[]|]|]; cbn [bind]; destruct v as [z|a]; try reflexivity.
    apply impl_nd_axis_tuple_ext.
    + intros Hne v k dt init. destruct t as [|x t]; [contradiction|].
      cbn [length] in *.
      rewrite (IH m ltac:(lia)), (IH (S (length t)) ltac:(lia));
        cbn [axis_depth]; try lia. reflexivity.
    + intros v ax dt init Hax.
      rewrite (IH m ltac:(lia)), (IH (length t) ltac:(lia));
        cbn [axis_depth]; try lia. reflexivity.
Qed.

(** *** No function below [reduce] raises the error of the bound *)

Lemma bind_norec {A B : Type} (m : result A) (k : A -> result B) :
  m <> Raise RecursionError ->
  (forall a, k a <> Raise RecursionError) ->
  bind m k <> Raise RecursionError.
Proof.
  intros Hm Hk. destruct m as [a|e]; cbn [bind]; [apply Hk|].
  intros H. apply Hm. now injection H as ->.
Qed.

Ltac norec :=
  repeat (cbn [bind of_option];
          match goal with
          | |- bind _ _ <> _ => apply bind_norec; [|intros ?]
          | |- Ok _ <> _ => discriminate
          | |- Raise _ <> _ => discriminate
          | |- of_option ?o _ <> _ => destruct o
          | |- (if ?c then _ else _) <> _ => destruct c
          | |- (let (_, _) := ?x in _) <> _ => destruct x
          | H : _ |- _ => apply H
          end).

Lemma norm_index_norec (i d : Z) : norm_index i d <> Raise RecursionError.
Proof. unfold norm_index. norec. Qed.

Lemma ravel_index_norec (shp : list Z) :
  forall idx, ravel_index shp idx <> Raise RecursionError.
Proof.
  induction shp as [|d ds IH]; intros [|i idx]; cbn [ravel_index];
    try discriminate.
  apply bind_norec; [apply norm_index_norec|intros i'].
  apply bind_norec; [apply IH|discriminate].
Qed.

Lemma offset_norec (shp : list Z) :
  forall idx, offset shp idx <> Raise RecursionError.
Proof.
  induction shp as [|d ds IH]; intros [|i idx]; cbn [offset];
    try discriminate.
  apply bind_norec; [apply IH|discriminate].
Qed.

Lemma getitem_norec (a : ndarray) (idx : list Z) :
  getitem a idx <> Raise RecursionError.
Proof.
  unfold getitem. apply bind_norec; [apply offset_norec|discriminate].
Qed.

Lemma setitem_norec (a : ndarray) (idx : list Z) (v : Z) :
  setitem a idx v <> Raise RecursionError.
Proof.
  unfold setitem. apply bind_norec; [apply ravel_index_norec|intros p].
  norec.
Qed.

Lemma view_get_norec (a : ndarray) (pos : Z) :
  view_get a pos <> Raise RecursionError.
Proof.
  unfold view_get. apply bind_norec; [apply norm_index_norec|intros p].
  norec.
Qed.

Lemma view_set_norec (a : ndarray) (pos v : Z) :
  view_set a pos v <> Raise RecursionError.
Proof.
  unfold view_set. apply bind_norec; [apply norm_index_norec|intros p].
  norec.
Qed.

Lemma compute_flat_idx_loop_norec (strides : list Z) (axis : Z) :
  forall rest acc i j,
    compute_flat_idx_loop strides rest axis acc i j <> Raise RecursionError.
Proof.
  induction rest as [|x rest IH]; intros acc i j;
    cbn [compute_flat_idx_loop]; [discriminate|].
  destruct (negb (Z.of_nat i =? axis)); [|apply IH].
  destruct (nth_error strides j); cbn [of_option bind];
    [apply IH|discriminate].
Qed.

Lemma compute_flat_idx_norec (strides : list Z) (isz : Z) (idx : list Z)
    (axis : Z) :
  compute_flat_idx strides isz idx axis <> Raise RecursionError.
Proof.
  unfold compute_flat_idx.
  apply bind_norec; [apply compute_flat_idx_loop_norec|intros f].
  unfold floordiv. norec.
Qed.

Lemma tuple_slice_append_loop_norec (tup : list Z) (pos val : Z) :
  forall fuel s i j,
    tuple_slice_append_loop fuel tup pos val s i j <> Raise RecursionError.
Proof.
  induction fuel as [|fuel IH]; intros s i j;
    cbn [tuple_slice_append_loop]; [discriminate|].
  destruct (Z.of_nat j =? pos); [apply IH|].
  destruct (nth_error tup i); cbn [of_option bind]; [apply IH|discriminate].
Qed.

Lemma impl_1d_loop_norec (u : ufunc) (a : ndarray) :
  forall range r, impl_1d_loop u a range r <> Raise RecursionError.
Proof.
  induction range as [|i range IH]; intros r; cbn [impl_1d_loop];
    [discriminate|].
  apply bind_norec; [apply getitem_norec|intros x; apply IH].
Qed.

Lemma impl_1d_norec (u : ufunc) (a : ndarray) (initial : option Z) :
  impl_1d u a initial <> Raise RecursionError.
Proof.
  unfold impl_1d. apply bind_norec.
  - destruct initial; [discriminate|].
    destruct (identity u); [discriminate|apply getitem_norec].
  - intros r. apply bind_norec; [norec|intros sz; apply impl_1d_loop_norec].
Qed.

Lemma seed_loop_norec (a : ndarray) (axis : Z) :
  forall idxs r, seed_loop a axis idxs r <> Raise RecursionError.
Proof.
  induction idxs as [|idx idxs IH]; intros r; cbn [seed_loop];
    [discriminate|].
  apply bind_norec; [apply tuple_slice_append_loop_norec|intros ri].
  apply bind_norec; [apply getitem_norec|intros x].
  apply bind_norec; [apply setitem_norec|intros r'; apply IH].
Qed.

Lemma fold_loop_norec (u : ufunc) (axis : Z) :
  forall items r, fold_loop u axis items r <> Raise RecursionError.
Proof.
  induction items as [|[idx v] items IH]; intros r; cbn [fold_loop];
    [discriminate|].
  apply bind_norec; [apply compute_flat_idx_norec|intros p].
  apply bind_norec; [apply view_get_norec|intros lhs].
  apply bind_norec; [apply view_set_norec|intros r'; apply IH].
Qed.

Lemma impl_nd_axis_int_norec (u : ufunc) (a : ndarray) (axis : axis_val)
    (dtype : option dtype) (initial : option Z) :
  impl_nd_axis_int u a axis dtype initial <> Raise RecursionError.
Proof.
  unfold impl_nd_axis_int.
  destruct axis as [|k|t|]; try discriminate.
  - destruct ((0 <? 0) || (0 >=? ndim a)); [discriminate|].
    apply bind_norec; [|intros r; apply fold_loop_norec].
    destruct initial; [discriminate|].
    destruct (identity u); [discriminate|apply seed_loop_norec].
  - destruct ((k <? 0) || (k >=? ndim a)); [discriminate|].
    apply bind_norec; [|intros r; apply fold_loop_norec].
    destruct initial; [discriminate|].
    destruct (identity u); [discriminate|apply seed_loop_norec].
Qed.

Lemma axis_rest_loop_norec (min_idx : nat) (axis : list Z) :
  forall range ax,
    axis_rest_loop range min_idx axis ax <> Raise RecursionError.
Proof.
  induction range as [|i range IH]; intros ax; cbn [axis_rest_loop];
    [discriminate|].
  destruct (negb (i =? min_idx)%nat); [|apply IH].
  destruct (nth_error axis i); cbn [of_option bind]; [apply IH|discriminate].
Qed.

Lemma ol_reduce_norec (u : ufunc) (array : nbtype)
    (axis dtype initial : typing_arg) :
  ol_reduce u array axis dtype initial <> Raise RecursionError.
Proof.
  unfold ol_reduce. destruct array; try discriminate. norec.
Qed.

Lemma reduce_axis_int_norec (u : ufunc) (v : value) (k : Z)
    (dtype : option dtype) (initial : option Z) :
  reduce u v (AxisInt k) dtype initial <> Raise RecursionError.
Proof.
  unfold reduce. cbn [axis_depth]. rewrite reduce_depth_S.
  apply bind_norec; [apply ol_reduce_norec|intros [[]|]];
    destruct v as [z|a]; try discriminate.
  - apply bind_norec; [apply impl_1d_norec|discriminate].
  - apply bind_norec; [apply impl_nd_axis_int_norec|discriminate].
Qed.

Lemma reduce_norec (u : ufunc) :
  forall (n : nat) (t : list Z) (v : value) (dtype : option dtype)
         (initial : option Z),
    length t = n ->
    reduce u v (AxisTuple t) dtype initial <> Raise RecursionError.
Proof.
  induction n as [|n IH]; intros t v dtype initial Hlen.
  - destruct t; [|discriminate]. unfold reduce. cbn [axis_depth length].
    rewrite reduce_depth_S.
    apply bind_norec; [apply ol_reduce_norec|intros [[]|]];
      destruct v as [z|a]; try discriminate.
    apply bind_norec; [apply impl_1d_norec|discriminate].
  - unfold reduce. cbn [axis_depth]. rewrite Hlen, reduce_depth_S.
    apply bind_norec; [apply ol_reduce_norec|intros [[]|]];
      destruct v as [z|a]; try discriminate.
    + apply bind_norec; [apply impl_1d_norec|discriminate].
    + unfold impl_nd_axis_tuple.
      apply bind_norec; [unfold find_min; norec|intros [min_idx min_elem]].
      rewrite (reduce_depth_enough u (S n) (S n)) by (cbn [axis_depth]; lia).
      apply bind_norec; [apply reduce_axis_int_norec|intros r].
      destruct (length t =? 1)%nat; [discriminate|].
      destruct (length t =? 2)%nat.
      * apply bind_norec; [norec|intros other].
        rewrite (reduce_depth_enough u (S n) (S n))
          by (cbn [axis_depth]; lia).
        apply reduce_axis_int_norec.
      * destruct (axis_rest_loop
                    (seq 0 (length (zeros (Z.of_nat (length t) - 1))))
                    min_idx t (zeros (Z.of_nat (length t) - 1)))
          as [ax|e] eqn:Hax; cbn [bind].
        -- assert (Hl : length ax = n).
           { apply axis_rest_loop_length in Hax. rewrite Hax.
             unfold zeros. rewrite repeat_length. lia. }
           rewrite (reduce_depth_enough u (S n) (S n))
             by (cbn [axis_depth]; lia).
           now apply IH.
        -- intros H. injection H as ->.
           exact (axis_rest_loop_norec min_idx t _ _ Hax).
Qed.

(** X11.  The calls back from [impl_nd_axis_tuple] end: each one passes an
    integer axis or a tuple one shorter, so a bound on their nesting above
    the length of the tuple is never reached and does not change the
    result. *)
Theorem reduce_calls_back_end (u : ufunc) (v : value) (axis : axis_val)
    (dtype : option dtype) (initial : option Z) (n : nat) :
  (axis_depth axis <= n)%nat ->
  reduce_depth n u v axis dtype initial = reduce u v axis dtype initial /\
  reduce u v axis dtype initial <> Raise RecursionError.
Proof.
  intros Hn. split; [now apply (reduce_depth_enough u n n)|].
  destruct axis as [|k|t|].
  - unfold reduce. cbn [axis_depth]. rewrite reduce_depth_S.
    apply bind_norec; [apply ol_reduce_norec|intros [[]|]];
      destruct v as [z|a]; try discriminate.
    + apply bind_norec; [apply impl_1d_norec|discriminate].
    + apply bind_norec; [apply impl_nd_axis_int_norec|discriminate].
  - apply reduce_axis_int_norec.
  - now apply (reduce_norec u (length t)).
  - unfold reduce. cbn [axis_depth]. rewrite reduce_depth_S.
    apply bind_norec; [apply ol_reduce_norec|intros [[]|]];
      destruct v as [z|a]; try discriminate.
    apply bind_norec; [apply impl_1d_norec|discriminate].
Qed.

(** ** Tuples of two and of more axes *)

Lemma axis_rest_loop_closed (min_idx : nat) (axis : list Z) :
  forall (m : nat) (pre : list Z),
    (length pre + m <= length axis)%nat ->
    axis_rest_loop (seq (length pre) m) min_idx axis (pre ++ repeat 0 m)
    = Ok (pre ++ map (fun i => if (i =? min_idx)%nat then 0
                               else nth i axis 0) (seq (length pre) m)).
Proof.
  induction m as [|m IH]; intros pre Hlen.
  - reflexivity.
  - cbn [seq repeat axis_rest_loop map].
    destruct (length pre =? min_idx)%nat eqn:Hs; cbn [negb].
    + rewrite (app_cons_assoc pre (repeat 0 m) 0), <- (length_snoc pre 0).
      rewrite IH by (rewrite length_snoc; lia).
      now rewrite <- app_assoc.
    + rewrite (FlatIdxFacts.nth_error_nth_Z axis (length pre)) by lia.
      cbn [of_option bind]. rewrite tuple_setitem_app.
      rewrite (app_cons_assoc pre (repeat 0 m) (nth (length pre) axis 0)),
        <- (length_snoc pre (nth (length pre) axis 0)).
      rewrite IH by (rewrite length_snoc; lia).
      rewrite <- app_assoc, length_snoc. reflexivity.
Qed.

(** X12.  With three or more axes, for a function with an identity element,
    [reduce] eliminates the smallest axis and calls back with the tuple of the
    first [len(axis) - 1] entries of [axis], in which the entry at the
    position of the smallest is 0 and the others are as they were: no entry
    is decremented, and the last entry is left out unless it is the
    smallest. *)
Theorem reduce_many_axes (u : ufunc) (a : ndarray) (axis : list Z)
    (dtype : option dtype) (initial : option Z) (min_idx : nat) (min_elem : Z) :
  identity u <> None -> length (shape a) <> 1%nat ->
  (3 <= length axis)%nat ->
  find_min axis = Ok (min_idx, min_elem) ->
  reduce u (VArray a) (AxisTuple axis) dtype initial
  = (r <- reduce u (VArray a) (AxisInt min_elem) dtype initial ;;
     reduce u r
       (AxisTuple (map (fun i => if (i =? min_idx)%nat then 0
                                 else nth i axis 0)
                       (seq 0 (length axis - 1))))
       None None).
Proof.
  intros Hid Hnd Hlen Hmin. unfold reduce at 1.
  cbn [axis_depth]. rewrite reduce_depth_S. unfold ol_reduce.
  cbn [typeof].
  assert (Hty : typeof_axis (AxisTuple axis)
                = Given (TUniTuple TInteger (length axis))).
  { destruct axis; [simpl in Hlen; lia|reflexivity]. }
  rewrite Hty. cbn [axis_int axis_int_tuple is_integer].
  destruct (identity u) as [e|]; [|contradiction]. cbn [andb].
  apply Nat.eqb_neq in Hnd. rewrite Hnd. cbn [bind].
  unfold impl_nd_axis_tuple. rewrite Hmin. cbn [bind].
  rewrite (reduce_depth_enough u (length axis) (length axis))
    by (cbn [axis_depth]; lia).
  destruct (reduce u (VArray a) (AxisInt min_elem) dtype initial) as [r|];
    [|reflexivity].
  cbn [bind].
  replace (length axis =? 1)%nat with false
    by (symmetry; apply Nat.eqb_neq; lia).
  replace (length axis =? 2)%nat with false
    by (symmetry; apply Nat.eqb_neq; lia).
  unfold zeros. rewrite repeat_length.
  replace (Z.to_nat (Z.of_nat (length axis) - 1)) with (length axis - 1)%nat
    by lia.
  pose proof (axis_rest_loop_closed min_idx axis (length axis - 1) []) as H.
  cbn [app length] in H. rewrite H by lia. clear H.
  cbn [bind].
  apply (reduce_depth_enough u (length axis) (length axis)); [lia|].
  cbn [axis_depth]. rewrite length_map, length_seq. lia.
Qed.

End WithMemory.

(** The examples run with [Scenario.positions_beyond] outside the buffers. *)
#[local] Existing Instance Scenario.positions_beyond.

Lemma reduce_1d_left_fold_witness :
  reduce Scenario.add (VArray Scenario.array_1234) (AxisInt 7)
    (Some Scenario.int64) (Some 100)
  = Ok (VScalar 110).
Proof.
  apply (reduce_1d_left_fold Scenario.add Scenario.array_1234 7
           (Some Scenario.int64) (Some 100)).
  - split; [|split; [reflexivity|unfold wf_dtype; simpl; lia]].
    simpl. repeat (constructor; [lia|]). constructor.
  - reflexivity.
  - left. reflexivity.
Defined.

Lemma reduce_1d_idempotent_witness :
  reduce Scenario.maximum (VArray Scenario.array_51) (AxisInt 0) None None
  = Ok (VScalar 5).
Proof.
  apply (reduce_1d_idempotent Scenario.maximum Scenario.array_51 0 None).
  - split; [|split; [reflexivity|unfold wf_dtype; simpl; lia]].
    simpl. repeat (constructor; [lia|]). constructor.
  - reflexivity.
  - reflexivity.
  - discriminate.
  - intros x. apply Z.max_id.
Defined.

Lemma reduce_1d_ignores_axis_witness :
  reduce Scenario.add (VArray Scenario.array_1234) (AxisTuple [5; 2; 9])
    (Some Scenario.int64) None
  = Ok (VScalar 10).
Proof.
  rewrite (reduce_1d_ignores_axis Scenario.add Scenario.array_1234
             (AxisTuple [5; 2; 9]) (Some Scenario.int64) None);
    [reflexivity|discriminate|reflexivity].
Defined.

Lemma reduce_invalid_axis_witness :
  reduce Scenario.add (VArray Scenario.array_2x3) (AxisInt (-1)) None None
  = Raise (ValueError "Invalid axis").
Proof.
  apply (reduce_invalid_axis Scenario.add Scenario.array_2x3 (-1) None None).
  - simpl. lia.
  - left. lia.
Defined.

Lemma reduce_axis_left_out_witness :
  reduce Scenario.add (VArray Scenario.array_2x3) AxisOmitted None None
  = reduce Scenario.add (VArray Scenario.array_2x3) (AxisInt 0) None None /\
  reduce Scenario.maximum (VArray Scenario.array_2x3) AxisOmitted None None
  = Raise (NumbaTypeError (msg_not_reorderable "max")).
Proof.
  split.
  - apply (reduce_axis_left_out Scenario.add Scenario.array_2x3 None None).
    discriminate.
  - apply (reduce_axis_left_out Scenario.maximum Scenario.array_2x3 None
             None).
    reflexivity.
Defined.

Lemma reduce_axis_none_not_typed_witness :
  reduce Scenario.add (VArray Scenario.array_2x3) AxisNone None None
  = Raise TypingError.
Proof.
  apply (reduce_axis_none_not_typed Scenario.add Scenario.array_2x3 None None).
  discriminate.
Defined.

Lemma reduce_calls_back_end_witness :
  reduce_depth 9 Scenario.add (VArray Scenario.array_2x1x1x1)
    (AxisTuple [1; 2; 3]) None None
  = reduce Scenario.add (VArray Scenario.array_2x1x1x1)
      (AxisTuple [1; 2; 3]) None None.
Proof.
  apply (reduce_calls_back_end Scenario.add (VArray Scenario.array_2x1x1x1)
           (AxisTuple [1; 2; 3]) None None 9).
  simpl. lia.
Defined.

Lemma reduce_two_axes_witness :
  reduce Scenario.add (VArray Scenario.array_2x3) (AxisTuple [1; 0]) None None
  = (r <- reduce Scenario.add (VArray Scenario.array_2x3)
            (AxisInt (Z.min 1 0)) None None ;;
     reduce Scenario.add r (AxisInt (Z.max 1 0 - 1)) None None).
Proof.
  apply (reduce_two_axes Scenario.add Scenario.array_2x3 1 0 None None);
    discriminate.
Defined.

Lemma reduce_many_axes_witness :
  reduce Scenario.add (VArray Scenario.array_2x1x1x1) (AxisTuple [1; 2; 3])
    None None
  = (r <- reduce Scenario.add (VArray Scenario.array_2x1x1x1) (AxisInt 1)
            None None ;;
     reduce Scenario.add r (AxisTuple [0; 2]) None None).
Proof.
  apply (reduce_many_axes Scenario.add Scenario.array_2x1x1x1 [1; 2; 3]
           None None 0 1);
    [discriminate|discriminate|simpl; lia|reflexivity].
Defined.

End AxisFacts.

(** * The result of [reduce] over an axis, cell by cell *)

Module CellFacts.
Import Tuple NdArray Reduce Spec IndexFacts BoundsFacts LoopFacts Lanes.

Section WithMemory.

Context {mem : Memory}.

Lemma index_eqb_eq (x y : list Z) : index_eqb x y = true <-> x = y.
Proof.
  unfold index_eqb. destruct (list_eq_dec Z.eq_dec x y); split; auto;
    discriminate.
Qed.

Lemma index_eqb_refl (x : list Z) : index_eqb x x = true.
Proof. now apply index_eqb_eq. Qed.

Lemma index_eqb_cons (i j0 : Z) (x y : list Z) :
  index_eqb (i :: x) (j0 :: y) = (i =? j0) && index_eqb x y.
Proof.
  destruct (Z.eqb_spec i j0) as [->|Hne]; cbn [andb].
  - destruct (index_eqb x y) eqn:E.
    + apply index_eqb_eq in E. subst. apply index_eqb_refl.
    + destruct (index_eqb (j0 :: x) (j0 :: y)) eqn:E'; [|reflexivity].
      apply index_eqb_eq in E'. injection E' as ->.
      now rewrite index_eqb_refl in E.
  - destruct (index_eqb (i :: x) (j0 :: y)) eqn:E'; [|reflexivity].
    apply index_eqb_eq in E'. congruence.
Qed.

Lemma nth_list_set (l : list Z) :
  forall (q p : nat) (v : Z),
    (q < length l)%nat ->
    nth p (list_set l q v) 0 = if (p =? q)%nat then v else nth p l 0.
Proof.
  induction l as [|x l IH]; intros [|q] [|p] v H; simpl in *; try lia;
    try reflexivity.
  apply IH. lia.
Qed.

Lemma ravel_value_inj (shp : list Z) :
  forall i1 i2,
    in_bounds i1 shp -> in_bounds i2 shp ->
    ravel_value shp i1 = ravel_value shp i2 -> i1 = i2.
Proof.
  induction shp as [|d ds IH]; intros i1 i2 H1 H2 He;
    inversion H1 as [|x1 d1 t1 s1 Hx1 Ht1]; subst;
    inversion H2 as [|x2 d2 t2 s2 Hx2 Ht2]; subst; [reflexivity|].
  cbn [ravel_value] in He.
  pose proof (ravel_value_bounds _ _ Ht1) as B1.
  pose proof (ravel_value_bounds _ _ Ht2) as B2.
  assert (x1 = x2) by nia. subst x2.
  f_equal. apply IH; auto. lia.
Qed.

(** *** The index tuples of a shape *)

Lemma flat_map_nil {A B : Type} (G : A -> list B) (l : list A) :
  (forall i, In i l -> G i = []) -> flat_map G l = [].
Proof.
  induction l as [|x l IH]; intros H; cbn [flat_map]; [reflexivity|].
  rewrite (H x) by now left. rewrite IH; [reflexivity|].
  intros i Hi. apply H. now right.
Qed.

Lemma flat_map_zrange_hit {B : Type} (G : Z -> list B) (d j0 : Z) :
  0 <= j0 < d -> (forall i, i <> j0 -> G i = []) ->
  flat_map G (zrange d) = G j0.
Proof.
  intros Hj HG. unfold zrange.
  replace (Z.to_nat d)
    with (Z.to_nat j0 + S (Z.to_nat d - Z.to_nat j0 - 1))%nat by lia.
  rewrite seq_app, map_app, flat_map_app. cbn [seq map flat_map].
  rewrite Nat.add_0_l, Z2Nat.id by lia.
  rewrite !flat_map_nil.
  - now rewrite app_nil_r.
  - intros i Hi. apply HG. apply in_map_iff in Hi as (n & <- & Hn).
    apply in_seq in Hn. lia.
  - intros i Hi. apply HG. apply in_map_iff in Hi as (n & <- & Hn).
    apply in_seq in Hn. lia.
Qed.

Lemma filter_flat_map {A B : Type} (P : B -> bool) (F : A -> list B)
    (l : list A) :
  filter P (flat_map F l) = flat_map (fun i => filter P (F i)) l.
Proof.
  induction l as [|x l IH]; cbn [flat_map]; [reflexivity|].
  now rewrite filter_app, IH.
Qed.

Lemma flat_map_singleton {A B : Type} (f : A -> B) (l : list A) :
  flat_map (fun i => [f i]) l = map f l.
Proof. induction l; cbn [flat_map map app]; congruence. Qed.

(** An index tuple within the extents occurs once among the index tuples of
    the shape. *)
Lemma filter_ndindex_eq (j shp : list Z) :
  in_bounds j shp ->
  filter (fun idx => index_eqb idx j) (ndindex shp) = [j].
Proof.
  induction 1 as [|j0 d j' ds Hj0 Hb IH]; [reflexivity|].
  cbn [ndindex]. rewrite filter_flat_map.
  rewrite (flat_map_zrange_hit _ d j0 Hj0).
  - rewrite filter_map_swap.
    rewrite (filter_ext _ (fun idx => index_eqb idx j')).
    + now rewrite IH.
    + intros idx. now rewrite index_eqb_cons, Z.eqb_refl.
  - intros i Hi. rewrite filter_map_swap.
    rewrite (filter_ext _ (fun _ => false)).
    + now rewrite filter_false.
    + intros idx. rewrite index_eqb_cons.
      now replace (i =? j0) with false by (symmetry; now apply Z.eqb_neq).
Qed.

Lemma in_ndindex (j shp : list Z) : in_bounds j shp -> In j (ndindex shp).
Proof.
  intros H. pose proof (filter_ndindex_eq j shp H) as E.
  assert (Hin : In j (filter (fun idx => index_eqb idx j) (ndindex shp)))
    by (rewrite E; now left).
  now apply filter_In in Hin.
Qed.

(** The index tuples that agree with [j] off axis [k] are, in order, [j]
    with each index of axis [k] inserted. *)
Lemma filter_ndindex_lane (k : nat) :
  forall shp j,
    (k < length shp)%nat -> in_bounds j (remove_at k shp) ->
    filter (fun idx => index_eqb (remove_at k idx) j) (ndindex shp)
    = map (fun i => insert_at k i j) (zrange (nth k shp 0)).
Proof.
  induction k as [|k IH]; intros [|d ds] j Hk Hb; cbn [length] in Hk;
    try lia.
  - cbn [ndindex nth]. rewrite filter_flat_map.
    rewrite (flat_map_ext _ (fun i => [i :: j])).
    + apply flat_map_singleton.
    + intros i. rewrite filter_map_swap.
      rewrite (filter_ext _ (fun idx => index_eqb idx j)) by reflexivity.
      unfold remove_at in Hb. cbn [firstn skipn app] in Hb.
      now rewrite (filter_ndindex_eq j ds Hb).
  - unfold remove_at in Hb. cbn [firstn skipn app] in Hb.
    inversion Hb as [|j0 d' j' s' Hj0 Hb']; subst.
    cbn [ndindex nth]. rewrite filter_flat_map.
    rewrite (flat_map_zrange_hit _ d j0 Hj0).
    + rewrite filter_map_swap.
      rewrite (filter_ext _ (fun idx => index_eqb (remove_at k idx) j')).
      * rewrite (IH ds j') by (try lia; exact Hb').
        rewrite map_map. reflexivity.
      * intros idx. unfold remove_at. cbn [firstn skipn app].
        now rewrite index_eqb_cons, Z.eqb_refl.
    + intros i Hi. rewrite filter_map_swap.
      rewrite (filter_ext _ (fun _ => false)); [now rewrite filter_false|].
      intros idx. unfold remove_at. cbn [firstn skipn app].
      rewrite index_eqb_cons.
      now replace (i =? j0) with false by (symmetry; now apply Z.eqb_neq).
Qed.

Lemma ndindex_length (shp : list Z) :
  Forall (fun d => 0 <= d) shp ->
  length (ndindex shp) = Z.to_nat (prodZ shp).
Proof.
  induction 1 as [|d ds Hd Hds IH]; [reflexivity|].
  cbn [ndindex prodZ fold_right].
  rewrite (flat_map_constant_length (c := length (ndindex ds))).
  - unfold zrange. rewrite length_map, length_seq, IH.
    fold (prodZ ds). pose proof (prodZ_nonneg ds Hds).
    now rewrite Z2Nat.inj_mul by lia.
  - intros x _. now rewrite length_map.
Qed.

Lemma nth_error_chunks (L : list (list Z)) :
  forall (m s n : nat) (idx : list Z),
    nth_error (flat_map (fun i => map (cons i) L) (map Z.of_nat (seq s m))) n
    = Some idx ->
    exists (q r : nat) (idx' : list Z),
      idx = Z.of_nat (s + q) :: idx' /\
      n = (q * length L + r)%nat /\
      nth_error L r = Some idx'.
Proof.
  induction m as [|m IH]; intros s n idx H.
  - destruct n; discriminate.
  - cbn [seq map flat_map] in H.
    destruct (Nat.ltb_spec n (length L)) as [Hlt|Hge].
    + rewrite nth_error_app1 in H by now rewrite length_map.
      rewrite nth_error_map in H.
      destruct (nth_error L n) as [idx'|] eqn:E; [|discriminate].
      injection H as <-. exists 0%nat, n, idx'.
      rewrite Nat.add_0_r. auto.
    + rewrite nth_error_app2 in H by now rewrite length_map.
      rewrite length_map in H.
      apply IH in H as (q & r & idx' & -> & Hn & Hr).
      exists (S q), r, idx'. split; [f_equal; lia|]. split; [lia|exact Hr].
Qed.

(** The index tuple at position [n] of the C order has position [n]. *)
Lemma ndindex_position (shp : list Z) :
  Forall (fun d => 0 <= d) shp ->
  forall (n : nat) (idx : list Z),
    nth_error (ndindex shp) n = Some idx ->
    ravel_value shp idx = Z.of_nat n.
Proof.
  induction 1 as [|d ds Hd Hds IH]; intros n idx H.
  - destruct n as [|[|n]]; try discriminate. now injection H as <-.
  - cbn [ndindex] in H. unfold zrange in H.
    apply nth_error_chunks in H as (q & r & idx' & -> & -> & Hr).
    cbn [ravel_value]. rewrite (IH r idx' Hr), ndindex_length by exact Hds.
    pose proof (prodZ_nonneg ds Hds). lia.
Qed.

Lemma nth_error_combine {A B : Type} (l : list A) :
  forall (l' : list B) (n : nat),
    nth_error (combine l l') n
    = match nth_error l n, nth_error l' n with
      | Some x, Some y => Some (x, y)
      | _, _ => None
      end.
Proof.
  induction l as [|x l IH]; intros [|y l'] [|n]; cbn [combine nth_error];
    try reflexivity.
  - now destruct (nth_error l n).
  - apply IH.
Qed.

(** [np.ndenumerate] pairs every index tuple with the element there. *)
Lemma ndenumerate_items (a : ndarray) :
  wf_array a ->
  ndenumerate a = map (fun idx => (idx, item a idx)) (ndindex (shape a)).
Proof.
  intros (Hnn & Hlen & _). unfold ndenumerate. apply nth_error_ext.
  intros n. rewrite nth_error_combine, nth_error_map.
  destruct (nth_error (ndindex (shape a)) n) as [idx|] eqn:E; [|reflexivity].
  cbn [option_map]. unfold item.
  rewrite (ndindex_position _ Hnn n idx E), Nat2Z.id.
  assert (Hn : (n < length (data a))%nat).
  { rewrite Hlen, <- ndindex_length by exact Hnn.
    apply nth_error_Some. congruence. }
  now rewrite (nth_error_nth' _ 0 Hn).
Qed.

(** The elements folded into the cell of the result at [j], in the order of
    the loop, are the elements along the reduced axis at [j]. *)
Lemma ndenumerate_lane (a : ndarray) (k : nat) (j : list Z) :
  wf_array a -> (k < length (shape a))%nat ->
  in_bounds j (remove_at k (shape a)) ->
  map snd (filter (fun it => index_eqb (remove_at k (fst it)) j)
             (ndenumerate a))
  = lane a k j.
Proof.
  intros Hwf Hk Hb. rewrite (ndenumerate_items a Hwf), filter_map_swap.
  cbn [fst]. rewrite (filter_ndindex_lane k _ j Hk Hb).
  unfold lane. now rewrite !map_map.
Qed.

(** *** The two loops of [impl_nd_axis_int], cell by cell *)

Section AlongAxis.

Variable u : ufunc.
Variable shp : list Z.
Variable k : nat.
Hypothesis Hk : (k < length shp)%nat.

Let shp' := remove_at k shp.

(** The cell of the result that an index tuple of the input is folded into. *)
Let cell (idx : list Z) : nat := Z.to_nat (ravel_value shp' (remove_at k idx)).

Lemma fold_loop_cells (items : list (list Z * Z)) :
  forall r : ndarray,
    (forall idx v, In (idx, v) items -> in_bounds idx shp) ->
    shape r = shp' -> itemsize (elt r) <> 0 ->
    length (data r) = Z.to_nat (prodZ shp') ->
    exists r',
      fold_loop u (Z.of_nat k) items r = Ok r' /\ same_frame r r' /\
      forall p : nat,
        nth p (data r') 0
        = fold_left (fun acc x => cast (elt r) (call u acc x))
            (map snd (filter (fun it => (cell (fst it) =? p)%nat) items))
            (nth p (data r) 0).
Proof.
  induction items as [|[idx v] items IH]; intros r Hin Hshape Hisz Hlen.
  - exists r. split; [reflexivity|]. split; [apply same_frame_refl|].
    reflexivity.
  - cbn [fold_loop]. unfold strides. rewrite Hshape.
    assert (Hb : in_bounds idx shp) by (apply (Hin idx v); now left).
    unfold shp'. rewrite (compute_flat_idx_c_strides _ _ _ _ Hb Hk Hisz).
    cbn [bind].
    pose proof (ravel_value_bounds _ _ (in_bounds_remove k _ _ Hb)) as Hp.
    fold shp' in Hp |- *.
    set (p0 := ravel_value shp' (remove_at k idx)) in *.
    assert (Hrange : 0 <= p0 < Z.of_nat (length (data r))) by lia.
    unfold view_get, view_set. rewrite (norm_index_in_range _ _ Hrange).
    cbn [bind].
    destruct (nth_error_in_range _ _ Hrange) as (x & Hx). rewrite Hx.
    cbn [of_option bind].
    edestruct (IH {| shape := shape r; elt := elt r;
                     data := list_set (data r) (Z.to_nat p0)
                               (cast (elt r) (call u x v)) |})
      as (r' & Hr' & Hframe & Hcells).
    + intros idx' v' H. apply (Hin idx' v'). now right.
    + exact Hshape.
    + exact Hisz.
    + cbn [data]. now rewrite list_set_length.
    + exists r'. split; [exact Hr'|]. split.
      * eapply same_frame_trans; [|exact Hframe].
        repeat split. cbn [data]. apply list_set_length.
      * intros p. rewrite Hcells. cbn [elt data filter fst].
        rewrite nth_list_set by lia.
        rewrite (Nat.eqb_sym (cell idx) p).
        change (cell idx) with (Z.to_nat p0).
        destruct (p =? Z.to_nat p0)%nat eqn:E; [|reflexivity].
        apply Nat.eqb_eq in E. subst p. cbn [map snd fold_left].
        now rewrite (nth_error_nth _ _ 0 Hx).
Qed.

Variable array : ndarray.
Hypothesis Hshape_array : shape array = shp.
Hypothesis Hwf : wf_array array.
Hypothesis Hnonempty : 0 < nth k shp 0.

Lemma seed_loop_cells (idxs : list (list Z)) :
  forall r : ndarray,
    (forall idx, In idx idxs -> in_bounds idx shp') ->
    shape r = shp' ->
    length (data r) = Z.to_nat (prodZ shp') ->
    exists r',
      seed_loop array (Z.of_nat k) idxs r = Ok r' /\ same_frame r r' /\
      forall j, in_bounds j shp' ->
        nth (Z.to_nat (ravel_value shp' j)) (data r') 0
        = if in_dec (list_eq_dec Z.eq_dec) j idxs
          then cast (elt r) (item array (insert_at k 0 j))
          else nth (Z.to_nat (ravel_value shp' j)) (data r) 0.
Proof.
  induction idxs as [|idx idxs IH]; intros r Hin Hshape Hlen.
  - exists r. split; [reflexivity|]. split; [apply same_frame_refl|].
    reflexivity.
  - cbn [seed_loop].
    assert (Hb : in_bounds idx shp') by (apply Hin; now left).
    pose proof (in_bounds_length _ _ Hb) as Hli.
    pose proof (remove_at_length k shp Hk) as Hls. fold shp' in Hls.
    unfold ndim. rewrite Hshape_array, <- Hls, <- Hli.
    rewrite tuple_slice_append_insert by lia. cbn [bind].
    rewrite Nat2Z.id.
    pose proof (in_bounds_insert k idx shp Hk Hnonempty Hb) as Hbi.
    pose proof (ravel_value_bounds _ _ Hbi) as Hp.
    destruct Hwf as (_ & Hdata & _). rewrite Hshape_array in Hdata.
    destruct (nth_error_in_range (data array)
                (ravel_value shp (firstn k idx ++ 0 :: skipn k idx)))
      as (x & Hx); [lia|].
    rewrite (getitem_in_bounds array (firstn k idx ++ 0 :: skipn k idx) x)
      by (rewrite Hshape_array; assumption).
    cbn [bind].
    unfold setitem. rewrite Hshape, (ravel_index_in_bounds _ _ Hb).
    cbn [bind].
    pose proof (ravel_value_bounds _ _ Hb) as Hq.
    replace (Z.to_nat (ravel_value shp' idx) <? length (data r))%nat
      with true by (symmetry; apply Nat.ltb_lt; lia).
    cbn [bind].
    edestruct (IH {| shape := shp'; elt := elt r;
                     data := list_set (data r)
                               (Z.to_nat (ravel_value shp' idx))
                               (cast (elt r) x) |})
      as (r' & Hr' & Hframe & Hcells).
    + intros idx' H. apply Hin. now right.
    + reflexivity.
    + cbn [data]. now rewrite list_set_length.
    + exists r'. split; [exact Hr'|]. split.
      * eapply same_frame_trans; [|exact Hframe].
        repeat split; [exact (eq_sym Hshape)|]. cbn [data].
        apply list_set_length.
      * intros j Hj. rewrite (Hcells j Hj). cbn [elt data].
        assert (Hitem : item array (insert_at k 0 idx) = x).
        { unfold item, insert_at. rewrite Hshape_array.
          now apply nth_error_nth. }
        destruct (in_dec (list_eq_dec Z.eq_dec) j idxs) as [Hjin|Hjout];
          destruct (in_dec (list_eq_dec Z.eq_dec) j (idx :: idxs))
            as [Hjin'|Hjout']; try reflexivity.
        -- elim Hjout'. now right.
        -- destruct Hjin' as [->|Hjin']; [|contradiction].
           rewrite nth_list_set by lia.
           now rewrite Nat.eqb_refl, Hitem.
        -- rewrite nth_list_set by lia.
           destruct (Nat.eqb_spec (Z.to_nat (ravel_value shp' j))
                       (Z.to_nat (ravel_value shp' idx))) as [He|Hne];
             [|reflexivity].
           elim Hjout'. left. symmetry.
           apply (ravel_value_inj shp'); auto.
           pose proof (ravel_value_bounds _ _ Hj). lia.
Qed.

End AlongAxis.

(** [impl_nd_axis_int], cell by cell. *)
Lemma impl_nd_axis_int_cells
    (u : ufunc) (array : ndarray) (axis : Z)
    (dtype : option dtype) (initial : option Z) :
  wf_array array ->
  0 <= axis < ndim array ->
  (forall d, dtype = Some d -> wf_dtype d) ->
  seeded initial (identity u) = true
  \/ 0 < nth (Z.to_nat axis) (shape array) 0 ->
  let nb := match dtype with Some d => d | None => elt array end in
  exists r,
    impl_nd_axis_int u array (AxisInt axis) dtype initial = Ok r /\
    shape r = remove_at (Z.to_nat axis) (shape array) /\
    elt r = nb /\
    length (data r) = Z.to_nat (prodZ (shape r)) /\
    forall j, in_bounds j (shape r) ->
      getitem r j
      = Ok (fold_left (fun acc x => cast nb (call u acc x))
              (lane array (Z.to_nat axis) j)
              (cast nb (seed initial (identity u)
                          (hd 0 (lane array (Z.to_nat axis) j))))).
Proof.
  intros Hwf Hax Hdt Hseed nb. unfold impl_nd_axis_int.
  replace ((axis <? 0) || (axis >=? ndim array)) with false
    by (symmetry; apply orb_false_iff; split;
        [apply Z.ltb_ge|rewrite Z.geb_leb; apply Z.leb_gt]; lia).
  unfold ndim in *.
  rewrite tuple_slice_remove by lia.
  set (k := Z.to_nat axis). set (shp' := remove_at k (shape array)).
  fold nb.
  assert (Hk : (k < length (shape array))%nat) by (unfold k; lia).
  assert (Hnb : itemsize nb <> 0).
  { unfold nb. destruct dtype as [d|].
    - specialize (Hdt d eq_refl). unfold wf_dtype in Hdt. lia.
    - destruct Hwf as (_ & _ & H). unfold wf_dtype in H. lia. }
  assert (Hseeded :
    exists r0,
      match initial, identity u with
      | None, None =>
          seed_loop array axis (ndindex shp') (np_empty shp' nb)
      | None, Some e => Ok (np_full shp' e nb)
      | Some v, _ => Ok (np_full shp' v nb)
      end = Ok r0 /\
      shape r0 = shp' /\ elt r0 = nb /\
      length (data r0) = Z.to_nat (prodZ shp') /\
      forall j, in_bounds j shp' ->
        nth (Z.to_nat (ravel_value shp' j)) (data r0) 0
        = cast nb (seed initial (identity u) (hd 0 (lane array k j)))).
  { assert (Hfull : forall v j, in_bounds j shp' ->
              nth (Z.to_nat (ravel_value shp' j))
                (repeat (cast nb v) (Z.to_nat (prodZ shp'))) 0 = cast nb v).
    { intros v j Hj. pose proof (ravel_value_bounds _ _ Hj).
      apply nth_repeat_lt. lia. }
    destruct initial as [v|].
    - eexists. split; [reflexivity|]. cbn [np_full shape elt data seed].
      rewrite repeat_length. repeat split; auto.
    - destruct (identity u) as [e|].
      + eexists. split; [reflexivity|]. cbn [np_full shape elt data seed].
        rewrite repeat_length. repeat split; auto.
      + destruct Hseed as [Hs|Hne]; [discriminate|].
        rewrite <- (Z2Nat.id axis) by lia. fold k.
        destruct (seed_loop_cells (shape array) k Hk array eq_refl Hwf Hne
                    (ndindex shp') (np_empty shp' nb))
          as (r0 & Hr0 & (Hs & He & Hl) & Hcells).
        * intros idx. apply ndindex_in_bounds.
        * reflexivity.
        * simpl. now rewrite repeat_length.
        * exists r0. split; [exact Hr0|]. cbn [np_empty shape elt data] in *.
          rewrite Hs, He, Hl, repeat_length. repeat split; auto.
          intros j Hj. etransitivity; [exact (Hcells j Hj)|].
          destruct (in_dec (list_eq_dec Z.eq_dec) j (ndindex shp'))
            as [_|Hout]; [|elim Hout; now apply in_ndindex].
          cbn [seed]. f_equal. unfold lane, zrange.
          fold k in Hne.
          replace (Z.to_nat (nth k (shape array) 0))
            with (S (Z.to_nat (nth k (shape array) 0) - 1)) by lia.
          reflexivity. }
  destruct Hseeded as (r0 & -> & Hs0 & He0 & Hl0 & Hc0). cbn [bind].
  rewrite <- (Z2Nat.id axis) by lia. fold k.
  destruct (fold_loop_cells u (shape array) k Hk (ndenumerate array) r0)
    as (r & Hr & (Hs & He & Hl) & Hcells).
  - intros idx v. apply in_ndenumerate.
  - exact Hs0.
  - now rewrite He0.
  - exact Hl0.
  - exists r. split; [exact Hr|]. rewrite Hs, He, Hs0, He0.
    split; [reflexivity|]. split; [reflexivity|]. fold shp'.
    split; [now rewrite Hl, Hl0|].
    intros j Hj.
    pose proof (ravel_value_bounds _ _ Hj) as Hp.
    rewrite (getitem_in_bounds r j
               (nth (Z.to_nat (ravel_value shp' j)) (data r) 0));
      [|rewrite Hs, Hs0; exact Hj
       |rewrite Hs, Hs0; apply nth_error_nth'; lia].
    f_equal. rewrite Hcells, He0, (Hc0 j Hj). f_equal.
    rewrite <- (ndenumerate_lane array k j Hwf Hk Hj). f_equal.
    apply filter_ext_in. intros [idx v] Hin. cbn [fst].
    apply in_ndenumerate in Hin.
    pose proof (in_bounds_remove k _ _ Hin) as Hrem.
    fold shp' in Hrem.
    pose proof (ravel_value_bounds _ _ Hrem) as Hq.
    destruct (index_eqb (remove_at k idx) j) eqn:E.
    + apply index_eqb_eq in E. rewrite E. apply Nat.eqb_refl.
    + apply Nat.eqb_neq. intros He'. subst shp'.
      assert (remove_at k idx = j)
        by (apply (ravel_value_inj (remove_at k (shape array))); auto; lia).
      apply index_eqb_eq in H. congruence.
Qed.

Lemma Forall_remove_at (P : Z -> Prop) (k : nat) (l : list Z) :
  Forall P l -> Forall P (remove_at k l).
Proof.
  unfold remove_at. revert l.
  induction k as [|k IH]; intros l H; destruct H as [|x l Hx Hl];
    cbn [firstn skipn app]; try constructor; auto.
Qed.

(** X13.  The offset that [compute_flat_idx] returns for an index tuple of
    the input, from the strides of a C-contiguous result whose shape is
    that of the input without the reduced axis, is a position of the flat
    view of the result, and the cell there is the cell of the result at the
    index tuple without the reduced axis: computing the position from the
    strides and removing the axis from the index tuple are the same. *)
Theorem flat_offset_is_sliced_index
    (r : ndarray) (shp idx : list Z) (axis : Z) :
  in_bounds idx shp ->
  0 <= axis < Z.of_nat (length shp) ->
  shape r = tuple_slice (Z.of_nat (length shp)) shp axis ->
  wf_array r ->
  exists p,
    compute_flat_idx (strides r) (itemsize (elt r)) idx axis = Ok p /\
    0 <= p < Z.of_nat (length (data r)) /\
    view_get r p = getitem r (tuple_slice (Z.of_nat (length shp)) idx axis).
Proof.
  intros Hb Hax Hs (Hnn & Hlen & Hdt).
  rewrite tuple_slice_remove in Hs by exact Hax.
  pose proof (in_bounds_length _ _ Hb) as Hl.
  rewrite <- Hl, tuple_slice_remove by lia.
  set (k := Z.to_nat axis) in *.
  assert (Hk : (k < length shp)%nat) by (unfold k; lia).
  assert (Hisz : itemsize (elt r) <> 0) by (unfold wf_dtype in Hdt; lia).
  pose proof (in_bounds_remove k _ _ Hb) as Hrem.
  pose proof (ravel_value_bounds _ _ Hrem) as Hp.
  exists (ravel_value (remove_at k shp) (remove_at k idx)).
  split; [|split].
  - unfold strides. rewrite Hs, <- (Z2Nat.id axis) by lia. fold k.
    now apply compute_flat_idx_c_strides.
  - rewrite Hlen, Hs. lia.
  - unfold view_get.
    rewrite norm_index_in_range by (rewrite Hlen, Hs; lia).
    cbn [bind].
    destruct (nth_error_in_range (data r)
                (ravel_value (remove_at k shp) (remove_at k idx)))
      as (x & Hx); [rewrite Hlen, Hs; lia|].
    rewrite Hx. cbn [of_option]. symmetry.
    apply getitem_in_bounds; rewrite Hs; assumption.
Qed.

(** X14.  On a well-formed array whose rank is not 1, [reduce] over a valid
    integer axis returns a well-formed array of the element type [dtype], or
    of the element type of the input when [dtype] is left out, whose cell at
    every index tuple is the left fold of the function, each intermediate
    value converted to that element type, over all the elements along the
    reduced axis in increasing order of their index, from [initial] if
    given, else the identity, else the first of those elements. *)
Theorem reduce_axis_cells
    (u : ufunc) (a : ndarray) (k : Z)
    (dtype : option dtype) (initial : option Z) :
  wf_array a ->
  length (shape a) <> 1%nat ->
  0 <= k < ndim a ->
  (forall d, dtype = Some d -> wf_dtype d) ->
  seeded initial (identity u) = true
  \/ 0 < nth (Z.to_nat k) (shape a) 0 ->
  let nb := match dtype with Some d => d | None => elt a end in
  exists r,
    reduce u (VArray a) (AxisInt k) dtype initial = Ok (VArray r) /\
    wf_array r /\
    shape r = remove_at (Z.to_nat k) (shape a) /\
    elt r = nb /\
    forall j, in_bounds j (shape r) ->
      getitem r j
      = Ok (fold_left (fun acc x => cast nb (call u acc x))
              (lane a (Z.to_nat k) j)
              (cast nb (seed initial (identity u)
                          (hd 0 (lane a (Z.to_nat k) j))))).
Proof.
  intros Hwf Hnd Hk Hdt Hseed nb.
  destruct (impl_nd_axis_int_cells u a k dtype initial Hwf Hk Hdt Hseed)
    as (r & Hr & Hs & He & Hl & Hcells).
  exists r. split; [|split; [|split; [exact Hs|split; [exact He|exact Hcells]]]].
  - unfold reduce. cbn [axis_depth]. rewrite ReduceFacts.reduce_depth_S.
    unfold ol_reduce.
    cbn [typeof typeof_axis axis_int axis_int_tuple is_integer orb negb
           axis_default_or_integer].
    rewrite andb_false_r. apply Nat.eqb_neq in Hnd. rewrite Hnd.
    cbn [bind]. now rewrite Hr.
  - split; [|split; [exact Hl|]].
    + rewrite Hs. apply Forall_remove_at. now destruct Hwf.
    + rewrite He. fold nb. unfold nb. destruct dtype as [d|].
      * now apply Hdt.
      * now destruct Hwf as (_ & _ & H).
Qed.

End WithMemory.

(** The examples run with [Scenario.positions_beyond] outside the buffers. *)
#[local] Existing Instance Scenario.positions_beyond.

Lemma flat_offset_is_sliced_index_witness :
  exists p,
    compute_flat_idx [8] 8 [1; 2] 0 = Ok p /\
    0 <= p < 3 /\
    view_get {| shape := [3]; elt := Scenario.int64; data := [4; 5; 6] |} p
    = getitem {| shape := [3]; elt := Scenario.int64; data := [4; 5; 6] |}
        (tuple_slice 2 [1; 2] 0).
Proof.
  apply (flat_offset_is_sliced_index
           {| shape := [3]; elt := Scenario.int64; data := [4; 5; 6] |}
           [2; 3] [1; 2] 0).
  - repeat constructor; lia.
  - simpl. lia.
  - reflexivity.
  - split; [|split; [reflexivity|unfold wf_dtype; simpl; lia]].
    simpl. repeat (constructor; [lia|]). constructor.
Defined.

Lemma reduce_axis_cells_witness :
  exists r,
    reduce Scenario.subtract (VArray Scenario.array_2x3) (AxisInt 1) None None
    = Ok (VArray r) /\
    wf_array r /\
    shape r = [2] /\
    elt r = Scenario.int64 /\
    forall j, in_bounds j (shape r) ->
      getitem r j
      = Ok (fold_left
              (fun acc x => cast Scenario.int64 (call Scenario.subtract acc x))
              (lane Scenario.array_2x3 1 j)
              (cast Scenario.int64 (hd 0 (lane Scenario.array_2x3 1 j)))).
Proof.
  apply (reduce_axis_cells Scenario.subtract Scenario.array_2x3 1 None None).
  - split; [|split; [reflexivity|unfold wf_dtype; simpl; lia]].
    simpl. repeat (constructor; [lia|]). constructor.
  - discriminate.
  - unfold ndim. simpl. lia.
  - discriminate.
  - right. simpl. lia.
Defined.

End CellFacts.

(** * Freezing, compiling and typing *)

Module RegistryFacts.
Import DUFunc.

Section WithCollaborators.

Variable user_sig : Type.
Variable normalize_signature :
  user_sig -> result (list etype * option etype).
Variable compile_element_wise_function :
  list (signature * compile_result) -> list etype -> option etype ->
  result (compile_result * list etype * option etype
          * list (signature * compile_result)).
Variable finalize_ufunc_signature :
  compile_result -> list etype -> option etype -> result signature.
Variable build_element_wise_ufunc_wrapper :
  compile_result -> signature -> result (list nat * Z * nat).
Variable ufunc_find_matching_loop : dufunc -> list etype -> option loop.
Variable handle_inputs :
  dufunc -> list argty -> result (list etype * list argty * nat * ascii).
Variable str_argtys : list argty -> string.
Variable pyval : Type.
Variable typeof : pyval -> result argty.
Variable map_arrayscalar_type : pyval -> result etype.
Variable repr : string -> string.
Variable str : dufunc -> string.

Let compile_for_argtys :=
  _compile_for_argtys compile_element_wise_function finalize_ufunc_signature
    build_element_wise_ufunc_wrapper str.

Let add_sig :=
  add user_sig normalize_signature compile_element_wise_function
    finalize_ufunc_signature build_element_wise_ufunc_wrapper str.

Let find := find_ewise_function ufunc_find_matching_loop.

Let type_me :=
  _type_me compile_element_wise_function finalize_ufunc_signature
    build_element_wise_ufunc_wrapper ufunc_find_matching_loop handle_inputs
    str_argtys str.

Let compile_for_args :=
  _compile_for_args compile_element_wise_function finalize_ufunc_signature
    build_element_wise_ufunc_wrapper pyval typeof map_arrayscalar_type repr
    str.

(** X15.  [disable_compile] on a function without a compiled signature
    fails its assertion and leaves the function not frozen.  With at least
    one signature it sets the frozen flag and nothing else; freezing again
    changes nothing, and from then on [add] raises the error of a disabled
    compilation and the table stays as it was before the freeze. *)
Theorem disable_compile_freezes (d : dufunc) :
  (overloads d = [] -> disable_compile d = (Raise AssertionError, d)) /\
  (overloads d <> [] ->
   exists d',
     disable_compile d = (Ok tt, d') /\
     d' = {| ufunc_name := ufunc_name d; nin := nin d; nout := nout d;
             _frozen := true; overloads := overloads d; loops := loops d;
             _keepalive := _keepalive d; libs := libs d |} /\
     disable_compile d' = (Ok tt, d') /\
     forall sig argtys return_type,
       normalize_signature sig = Ok (argtys, return_type) ->
       add_sig sig d'
       = (Raise (RuntimeError ("compilation disabled for " ++ str d')), d')).
Proof.
  unfold disable_compile, bindM, get, put, raise. split.
  - intros ->. reflexivity.
  - intros Hne. destruct (overloads d) as [|o os] eqn:Ho; [contradiction|].
    cbn [length Nat.ltb Nat.leb]. eexists. split; [reflexivity|].
    split; [reflexivity|]. cbn [overloads length Nat.ltb Nat.leb].
    split; [reflexivity|].
    intros sig argtys return_type Hn.
    unfold add_sig, add, bindM, lift. rewrite Hn.
    unfold _compile_for_argtys, bindM, get. reflexivity.
Qed.

Lemma find_state (d : dufunc) (tys : list etype) :
  find tys d = (fst (find tys d), d).
Proof.
  unfold find, find_ewise_function, bindM, get, ret.
  destruct (_frozen d); [|reflexivity].
  destruct (ufunc_find_matching_loop d tys); reflexivity.
Qed.

(** The element types that [_type_me] looks up. *)
Let ewise_of (base_types : list etype) (explicit_outputs : list argty)
  : list etype :=
  if (0 <? length explicit_outputs)%nat
  then firstn (length base_types - length explicit_outputs) base_types
  else base_types.

Lemma type_me_state_frozen (d : dufunc) (argtys : list argty)
    (kwtys : list (string * argty)) :
  _frozen d = true -> snd (type_me argtys kwtys d) = d.
Proof.
  intros Hf. unfold type_me, _type_me. destruct kwtys; [|reflexivity].
  unfold bindM at 1. unfold get.
  unfold bindM at 1. unfold lift.
  destruct (handle_inputs d argtys) as [[[[base outs] ndims] layout]|e];
    [|reflexivity].
  unfold bindM at 1. fold find.
  match goal with |- context [find ?t d] => rewrite (find_state d t);
    destruct (fst (find t d)) as [[[sig cres]|]|e] end.
  - unfold bindM at 1. unfold ret at 1.
    unfold bindM.
    destruct (0 <? length outs)%nat.
    + unfold ret. destruct (outs ++ argtys); reflexivity.
    + destruct (nout d =? 1)%nat; [|reflexivity].
      destruct (0 <? ndims)%nat; reflexivity.
  - rewrite Hf. reflexivity.
  - reflexivity.
Qed.

(** X16.  Typing a call never changes a frozen function, whatever the
    outcome; and when the lookup finds no signature for the element types of
    the call the typing fails with the type error naming the function and
    the argument types. *)
Theorem type_me_frozen (d : dufunc) (argtys : list argty)
    (kwtys : list (string * argty)) :
  _frozen d = true ->
  snd (type_me argtys kwtys d) = d /\
  (forall base_types explicit_outputs ndims layout,
      handle_inputs d argtys
      = Ok (base_types, explicit_outputs, ndims, layout) ->
      fst (find (ewise_of base_types explicit_outputs) d) = Ok None ->
      type_me argtys [] d
      = (Raise (TypeError ("cannot call " ++ str d ++ " with types "
                           ++ str_argtys argtys)), d)).
Proof.
  intros Hf. split; [now apply type_me_state_frozen|].
  intros base outs ndims layout Hh Hfind.
  unfold type_me, _type_me.
  unfold bindM at 1. unfold get.
  unfold bindM at 1. unfold lift. rewrite Hh.
  unfold bindM at 1. fold find. fold (ewise_of base outs).
  rewrite (find_state d (ewise_of base outs)), Hfind.
  rewrite Hf. reflexivity.
Qed.

(** *** The table of loops *)

Lemma register_find (table : list (list nat * Z)) (key : list nat) (ptr : Z) :
  find_loop (register table key ptr) key = Some ptr.
Proof.
  induction table as [|[k p] table IH]; cbn [register find_loop].
  - destruct (list_eq_dec Nat.eq_dec key key); [reflexivity|contradiction].
  - destruct (list_eq_dec Nat.eq_dec k key) as [He|Hne]; cbn [find_loop].
    + destruct (list_eq_dec Nat.eq_dec k key); [reflexivity|contradiction].
    + destruct (list_eq_dec Nat.eq_dec k key); [contradiction|exact IH].
Qed.

Lemma register_find_other (table : list (list nat * Z)) (key other : list nat)
    (ptr : Z) :
  other <> key ->
  find_loop (register table key ptr) other = find_loop table other.
Proof.
  intros Hne. induction table as [|[k p] table IH]; cbn [register find_loop].
  - destruct (list_eq_dec Nat.eq_dec key other); [congruence|reflexivity].
  - destruct (list_eq_dec Nat.eq_dec k key) as [He|Hk]; cbn [find_loop].
    + destruct (list_eq_dec Nat.eq_dec k other); [congruence|reflexivity].
    + destruct (list_eq_dec Nat.eq_dec k other); [reflexivity|exact IH].
Qed.

Lemma find_loop_None (table : list (list nat * Z)) (key : list nat) :
  find_loop table key = None <-> ~ In key (map fst table).
Proof.
  induction table as [|[k p] table IH]; cbn [find_loop map fst In].
  - tauto.
  - destruct (list_eq_dec Nat.eq_dec k key) as [He|Hne].
    + split; [discriminate|]. intros H. elim H. now left.
    + rewrite IH. tauto.
Qed.

Lemma register_keys (table : list (list nat * Z)) (key : list nat) (ptr : Z) :
  map fst (register table key ptr)
  = match find_loop table key with
    | Some _ => map fst table
    | None => map fst table ++ [key]
    end.
Proof.
  induction table as [|[k p] table IH]; cbn [register find_loop map fst app].
  - reflexivity.
  - destruct (list_eq_dec Nat.eq_dec k key) as [He|Hne]; cbn [map fst].
    + reflexivity.
    + rewrite IH. now destruct (find_loop table key).
Qed.

Lemma register_NoDup (table : list (list nat * Z)) (key : list nat) (ptr : Z) :
  NoDup (map fst table) -> NoDup (map fst (register table key ptr)).
Proof.
  intros Hnd. rewrite register_keys.
  destruct (find_loop table key) eqn:Hf; [exact Hnd|].
  apply find_loop_None in Hf.
  apply NoDup_app; [exact Hnd|repeat constructor; intros []|].
  intros x Hx [<-|[]]. contradiction.
Qed.

Lemma fold_register_NoDup (calls table : list (list nat * Z)) :
  NoDup (map fst table) ->
  NoDup (map fst (fold_left (fun t l => register t (fst l) (snd l))
                    calls table)).
Proof.
  revert table. induction calls as [|[k p] calls IH]; intros table Hnd;
    cbn [fold_left fst snd]; [exact Hnd|].
  apply IH. now apply register_NoDup.
Qed.

(** The keys of the table of loops are unique, whatever was registered. *)
Lemma loop_table_NoDup (d : dufunc) : NoDup (map fst (loop_table d)).
Proof. apply fold_register_NoDup. constructor. Qed.

(** A call of [_add_loop] registers its loop in the table. *)
Lemma loop_table_snoc (d d' : dufunc) (key : list nat) (ptr : Z) :
  loops d' = loops d ++ [(key, ptr)] ->
  loop_table d' = register (loop_table d) key ptr.
Proof.
  intros H. unfold loop_table. rewrite H. now rewrite fold_left_app.
Qed.

(** X17.  [_compile_for_argtys] never changes the name, the arities or the
    frozen flag, and the keys of the table of loops stay unique.  Either it
    fails, and then the table of loops, the keep-alive list and the libraries
    are as before; or it returns a compile result, and then one loop is
    registered: its key now has the new pointer, in the place of the loop
    that key had if it had one ([ntypes] is as before) and as one more entry
    if not, every other key has the loop it had, and there is one more
    keep-alive entry, for the pointer, the library of the result and the
    environment, and one more library, that of the result. *)
Theorem compile_for_argtys_registry (d : dufunc) (argtys : list etype)
    (return_type : option etype) :
  let r := compile_for_argtys argtys return_type d in
  ufunc_name (snd r) = ufunc_name d /\
  nin (snd r) = nin d /\ nout (snd r) = nout d /\
  _frozen (snd r) = _frozen d /\
  NoDup (map fst (loop_table (snd r))) /\
  ((exists e, fst r = Raise e) /\
   loop_table (snd r) = loop_table d /\
   _keepalive (snd r) = _keepalive d /\ libs (snd r) = libs d
   \/
   exists cres dtypenums ptr env,
     fst r = Ok cres /\
     loop_table (snd r) = register (loop_table d) dtypenums ptr /\
     find_loop (loop_table (snd r)) dtypenums = Some ptr /\
     (forall key, key <> dtypenums ->
        find_loop (loop_table (snd r)) key = find_loop (loop_table d) key) /\
     ntypes (snd r) = match find_loop (loop_table d) dtypenums with
                      | Some _ => ntypes d
                      | None => S (ntypes d)
                      end /\
     _keepalive (snd r) = _keepalive d ++ [(ptr, library cres, env)] /\
     libs (snd r) = libs d ++ [library cres]).
Proof.
  intros r.
  repeat (split; [
    subst r;
    unfold compile_for_argtys, _compile_for_argtys, _add_loop, bindM, get,
      put, raise, lift, ret;
    destruct (_frozen d) eqn:Hf; [now cbn|];
    destruct (compile_element_wise_function (overloads d) argtys return_type)
      as [[[[cres a'] rt'] ov']|e]; [|now cbn];
    destruct (finalize_ufunc_signature cres a' rt') as [actual|e];
      [|now cbn];
    destruct (build_element_wise_ufunc_wrapper cres actual)
      as [[[nums ptr] env]|e]; now cbn
  |]).
  split; [apply loop_table_NoDup|].
  subst r.
  unfold compile_for_argtys, _compile_for_argtys, _add_loop, bindM, get, put,
    raise, lift, ret.
  destruct (_frozen d) eqn:Hf.
  { cbn [fst snd]. left. repeat split; eauto. }
  destruct (compile_element_wise_function (overloads d) argtys return_type)
    as [[[[cres a'] rt'] ov']|e].
  2: { cbn [fst snd]. left. repeat split; eauto. }
  destruct (finalize_ufunc_signature cres a' rt') as [actual|e].
  2: { cbn [fst snd _keepalive libs]. left. repeat split; eauto. }
  destruct (build_element_wise_ufunc_wrapper cres actual)
    as [[[nums ptr] env]|e].
  2: { cbn [fst snd _keepalive libs]. left. repeat split; eauto. }
  cbn [fst snd _keepalive libs].
  right. exists cres, nums, ptr, env.
  match goal with
  | |- _ /\ loop_table ?d' = _ /\ _ =>
      assert (Htable : loop_table d' = register (loop_table d) nums ptr)
        by (apply loop_table_snoc; reflexivity)
  end.
  split; [reflexivity|]. split; [exact Htable|].
  split; [rewrite Htable; apply register_find|].
  split; [intros key Hkey; rewrite Htable;
          now apply register_find_other|].
  split; [|split; reflexivity].
  unfold ntypes. rewrite Htable.
  rewrite <- (length_map fst (register _ _ _)), register_keys.
  destruct (find_loop (loop_table d) nums).
  - now rewrite length_map.
  - rewrite length_app, length_map. cbn [length]. lia.
Qed.

(** X18.  When the lookup finds a signature for the element types of a call,
    the call is typed without compiling and the function is left as it was.
    Without explicit outputs, for a function with one output, the result is
    an array of the return type of the signature found, of the rank and
    layout of the inputs, or that return type itself at rank 0; explicit
    outputs are the result types instead. *)
Theorem type_me_known_types (d : dufunc) (argtys : list argty)
    (base_types : list etype) (explicit_outputs : list argty) (ndims : nat)
    (layout : ascii) (sig : signature) (cres : compile_result) :
  handle_inputs d argtys = Ok (base_types, explicit_outputs, ndims, layout) ->
  fst (find (ewise_of base_types explicit_outputs) d)
  = Ok (Some (sig, cres)) ->
  (explicit_outputs = [] -> nout d = 1%nat ->
   type_me argtys [] d
   = (Ok {| cs_return := if (0 <? ndims)%nat
                         then ArrayTy (return_type sig) ndims layout
                         else ScalarTy (return_type sig);
            cs_args := argtys |}, d)) /\
  (forall o os, explicit_outputs = o :: os ->
   type_me argtys [] d
   = (Ok {| cs_return := o; cs_args := os ++ argtys |}, d)).
Proof.
  intros Hh Hfind.
  assert (Hstart :
    type_me argtys [] d
    = ((outtys <~ (if (0 <? length explicit_outputs)%nat
                   then ret explicit_outputs
                   else if (nout d =? 1)%nat
                   then if (0 <? ndims)%nat
                        then ret [ArrayTy (return_type sig) ndims layout]
                        else ret [ScalarTy (return_type sig)]
                   else raise (NotImplementedError
                                 "typing gufuncs (nout > 1)")) ;;
        match outtys ++ argtys with
        | r :: a => ret {| cs_return := r; cs_args := a |}
        | [] => raise (TypeError "signature() takes at least one type")
        end) d)).
  { unfold type_me, _type_me.
    unfold bindM at 1. unfold get.
    unfold bindM at 1. unfold lift. rewrite Hh.
    unfold bindM at 1. fold find. fold (ewise_of base_types explicit_outputs).
    rewrite (find_state d (ewise_of base_types explicit_outputs)), Hfind.
    unfold bindM at 1. unfold ret at 1. reflexivity. }
  rewrite Hstart. split.
  - intros -> Hn. unfold bindM, ret. rewrite Hn.
    destruct ndims; reflexivity.
  - intros o os ->. reflexivity.
Qed.

Lemma find_exact_split (items : list (signature * compile_result))
    (tys : list etype) (sig : signature) (cres : compile_result) :
  find_exact items tys = Some (sig, cres) ->
  exists before after,
    items = before ++ (sig, cres) :: after /\
    args sig = tys /\
    forall s c, In (s, c) before -> args s <> tys.
Proof.
  induction items as [|[s c] items IH]; cbn [find_exact]; [discriminate|].
  destruct (etypes_eq_dec (args s) tys) as [He|Hne].
  - intros [= <- <-]. exists [], items. repeat split; auto.
  - intros H. destruct (IH H) as (before & after & -> & Ha & Hb).
    exists ((s, c) :: before), after. repeat split; auto.
    intros s' c' [[= <- <-]|Hin]; eauto.
Qed.

(** X19.  On a function that is not frozen, the signature that the lookup
    returns is the first one, in the order in which the signatures were
    registered, whose input types are the requested ones: of two signatures
    with the same input types the earlier one is used. *)
Theorem find_ewise_function_first_match (d : dufunc) (tys : list etype)
    (sig : signature) (cres : compile_result) :
  _frozen d = false ->
  fst (find tys d) = Ok (Some (sig, cres)) ->
  exists before after,
    overloads d = before ++ (sig, cres) :: after /\
    args sig = tys /\
    forall s c, In (s, c) before -> args s <> tys.
Proof.
  intros Hf. unfold find, find_ewise_function, bindM, get, ret.
  rewrite Hf. cbn [fst]. intros [= H]. now apply find_exact_split.
Qed.

(** X22.  On a function that is not frozen, a call whose element types have
    no signature compiles for them and looks the types up again: exactly one
    loop is registered, the call is typed from the signature that the second
    lookup finds, and the assertion fails if the compiler registered no
    signature with the requested input types. *)
Theorem type_me_compiles_unknown_types (d : dufunc) (argtys : list argty)
    (base_types : list etype) (ndims : nat) (layout : ascii)
    (cres : compile_result) (argtys' : list etype)
    (return_type' : option etype)
    (overloads' : list (signature * compile_result))
    (actual_sig : signature) (dtypenums : list nat) (ptr : Z) (env : nat) :
  _frozen d = false ->
  nout d = 1%nat ->
  handle_inputs d argtys = Ok (base_types, [], ndims, layout) ->
  find_exact (overloads d) base_types = None ->
  compile_element_wise_function (overloads d) base_types None
  = Ok (cres, argtys', return_type', overloads') ->
  finalize_ufunc_signature cres argtys' return_type' = Ok actual_sig ->
  build_element_wise_ufunc_wrapper cres actual_sig
  = Ok (dtypenums, ptr, env) ->
  let d' := {| ufunc_name := ufunc_name d; nin := nin d; nout := nout d;
               _frozen := false; overloads := overloads';
               loops := loops d ++ [(dtypenums, ptr)];
               _keepalive := _keepalive d ++ [(ptr, library cres, env)];
               libs := libs d ++ [library cres] |} in
  type_me argtys [] d
  = match find_exact overloads' base_types with
    | Some (sig, _) =>
        (Ok {| cs_return := if (0 <? ndims)%nat
                            then ArrayTy (return_type sig) ndims layout
                            else ScalarTy (return_type sig);
               cs_args := argtys |}, d')
    | None => (Raise AssertionError, d')
    end.
Proof.
  intros Hf Hn Hh Hmiss Hc Hfin Hw d'.
  destruct d as [nm ni no fr ov lp ka lb].
  cbn [_frozen nout overloads] in Hf, Hn, Hmiss, Hc. subst fr no d'.
  unfold type_me, _type_me, find_ewise_function, _compile_for_argtys,
    _add_loop, bindM, get, put, ret, raise, lift.
  rewrite Hh.
  repeat (cbn [length Nat.ltb Nat.leb _frozen nout overloads ufunc_name nin
                 loops _keepalive libs];
          first [rewrite Hmiss | rewrite Hc | rewrite Hfin | rewrite Hw]).
  cbn [length Nat.ltb Nat.leb _frozen nout overloads ufunc_name nin loops
         _keepalive libs].
  destruct (find_exact overloads' base_types) as [[sig cres2]|];
    [|reflexivity].
  destruct ndims; reflexivity.
Qed.

(** *** Calls with run-time arguments *)

Lemma kw_remove_absent (k : string) (kws : list (string * pyval)) :
  kw_lookup pyval k kws = None -> kw_remove pyval k kws = kws.
Proof.
  unfold kw_remove.
  induction kws as [|[k' v] kws IH]; cbn [kw_lookup filter fst];
    [reflexivity|].
  destruct (String.eqb k' k); [discriminate|]. cbn [negb].
  intros H. now rewrite IH.
Qed.

Lemma kw_lookup_removed (k : string) (kws : list (string * pyval)) :
  kw_lookup pyval k (kw_remove pyval k kws) = None.
Proof.
  unfold kw_remove.
  induction kws as [|[k' v] kws IH]; cbn [kw_lookup filter fst];
    [reflexivity|].
  destruct (String.eqb k' k) eqn:E; cbn [negb]; [exact IH|].
  cbn [kw_lookup]. now rewrite E.
Qed.

(** X20.  [_compile_for_args] rejects a call before it types or compiles
    anything, and leaves the function as it was, frozen or not: a keyword
    other than [out] raises the type error that lists the unexpected
    keywords in sorted order, and without such a keyword a number of
    arguments that is neither [nin] nor [nin + nout] fails the assertion. *)
Theorem compile_for_args_rejects (d : dufunc) (args : list pyval)
    (kws : list (string * pyval)) :
  (kw_remove pyval "out" kws <> [] ->
   compile_for_args args kws d
   = (Raise (TypeError
               ("unexpected keyword arguments to ufunc: "
                ++ String.concat ", "
                     (map repr
                        (sorted (map fst (kw_remove pyval "out" kws)))))),
      d)) /\
  (length args <> nin d -> length args <> (nin d + nout d)%nat ->
   compile_for_args args [] d = (Raise AssertionError, d)).
Proof.
  unfold compile_for_args, _compile_for_args. split.
  - intros Hne. unfold bindM at 1. unfold get.
    destruct (kw_lookup pyval "out" kws) as [out|] eqn:Hout.
    + destruct (kw_remove pyval "out" kws); [contradiction|reflexivity].
    + rewrite (kw_remove_absent _ _ Hout) in *.
      destruct kws; [contradiction|reflexivity].
  - intros H1 H2. unfold bindM at 1. unfold get. cbn [kw_lookup].
    apply Nat.eqb_neq in H1, H2. now rewrite H1, H2.
Qed.

(** X21.  Only the first [nin] arguments of a call decide what
    [_compile_for_args] compiles: the outputs, passed in place or as the
    keyword [out], are not typed, and the keyword [out] is the output
    passed last in place. *)
Theorem compile_for_args_outputs_ignored (d : dufunc)
    (ins outs : list pyval) :
  length ins = nin d ->
  outs = [] \/ length outs = nout d ->
  compile_for_args (ins ++ outs) [] d
  = (argtys <~ lift (argtys_of pyval typeof map_arrayscalar_type ins) ;;
     compile_for_argtys argtys None) d /\
  (forall (args : list pyval) (kws : list (string * pyval)) (out : pyval),
      kw_lookup pyval "out" kws = Some out ->
      compile_for_args args kws d
      = compile_for_args (args ++ [out]) (kw_remove pyval "out" kws) d).
Proof.
  intros Hins Houts. split.
  - unfold compile_for_args, _compile_for_args.
    unfold bindM at 1. unfold get. cbn [kw_lookup].
    rewrite length_app, Hins.
    replace ((nin d + length outs =? nin d)%nat
             || (nin d + length outs =? nin d + nout d)%nat) with true.
    + rewrite <- Hins, firstn_app, Nat.sub_diag, firstn_all.
      cbn [firstn]. now rewrite app_nil_r.
    + symmetry. apply orb_true_iff. destruct Houts as [-> | ->].
      * left. apply Nat.eqb_eq. cbn [length]. lia.
      * right. apply Nat.eqb_refl.
  - intros args kws out Hout.
    unfold compile_for_args, _compile_for_args.
    unfold bindM at 1 3. unfold get.
    now rewrite Hout, kw_lookup_removed.
Qed.

(** X25.  No method changes a frozen function: freezing again, [add],
    [_compile_for_argtys], [_compile_for_args], the lookup and the typing of a
    call all leave the object as it was, whatever they return, so the table
    of a frozen function never grows. *)
Theorem frozen_function_unchanged (d : dufunc) :
  _frozen d = true ->
  snd (disable_compile d) = d /\
  (forall sig, snd (add_sig sig d) = d) /\
  (forall argtys return_type,
      snd (compile_for_argtys argtys return_type d) = d) /\
  (forall args kws, snd (compile_for_args args kws d) = d) /\
  (forall tys, snd (find tys d) = d) /\
  (forall argtys kwtys, snd (type_me argtys kwtys d) = d).
Proof.
  intros Hf.
  assert (Hc : forall argtys return_type,
             snd (compile_for_argtys argtys return_type d) = d).
  { intros argtys return_type.
    unfold compile_for_argtys, _compile_for_argtys, bindM, get.
    now rewrite Hf. }
  split; [|split; [|split; [exact Hc|split; [|split]]]].
  - unfold disable_compile, bindM, get, put, raise.
    destruct (0 <? length (overloads d))%nat; [|reflexivity].
    destruct d. cbn [_frozen] in Hf. subst. reflexivity.
  - intros sig. unfold add_sig, add, bindM, lift.
    destruct (normalize_signature sig) as [[argtys return_type]|e];
      [apply Hc|reflexivity].
  - intros args kws. unfold compile_for_args, _compile_for_args.
    unfold bindM at 1. unfold get.
    destruct (match kw_lookup pyval "out" kws with
              | Some out => (args ++ [out], kw_remove pyval "out" kws)
              | None => (args, kws)
              end) as [args' [|kw kws']]; [|reflexivity].
    destruct ((length args' =? nin d)%nat
              || (length args' =? nin d + nout d)%nat); [|reflexivity].
    unfold bindM, lift.
    destruct (argtys_of pyval typeof map_arrayscalar_type
                (firstn (nin d) args')) as [argtys|e]; [apply Hc|reflexivity].
  - intros tys. now rewrite (find_state d tys).
  - intros argtys kwtys. now apply type_me_state_frozen.
Qed.

(** *** The order of the keywords in the message *)

Lemma insert_sorted_perm (k : string) (l : list string) :
  Permutation (k :: l) (insert_sorted k l).
Proof.
  induction l as [|x l IH]; cbn [insert_sorted]; [reflexivity|].
  destruct (String.leb k x); [reflexivity|].
  rewrite perm_swap. now apply perm_skip.
Qed.

(** [sorted] returns the keywords it is given, each as often as given. *)
Lemma sorted_perm (l : list string) : Permutation l (sorted l).
Proof.
  induction l as [|k l IH]; cbn [sorted fold_right]; [reflexivity|].
  rewrite <- insert_sorted_perm. now apply perm_skip.
Qed.

Lemma insert_sorted_ascending (k : string) (l : list string) :
  LocallySorted (fun a b => String.leb a b = true) l ->
  LocallySorted (fun a b => String.leb a b = true) (insert_sorted k l).
Proof.
  induction 1 as [|x|x y l Hl IH Hxy]; cbn [insert_sorted].
  - constructor.
  - destruct (String.leb k x) eqn:E.
    + now repeat constructor.
    + repeat constructor. destruct (String.leb_total k x); congruence.
  - destruct (String.leb k x) eqn:E.
    + now repeat constructor.
    + cbn [insert_sorted] in IH. destruct (String.leb k y) eqn:E'.
      * constructor; [exact IH|].
        destruct (String.leb_total k x); congruence.
      * now constructor.
Qed.

(** [sorted] returns them in ascending order. *)
Lemma sorted_ascending (l : list string) :
  LocallySorted (fun a b => String.leb a b = true) (sorted l).
Proof.
  induction l as [|k l IH]; cbn [sorted fold_right]; [constructor|].
  now apply insert_sorted_ascending.
Qed.

(** *** Pickling: [_reduce_states] and [_rebuild] *)

Variable of_signature : signature -> user_sig.

Let rebuild :=
  _rebuild user_sig normalize_signature compile_element_wise_function
    finalize_ufunc_signature build_element_wise_ufunc_wrapper str
    of_signature.

Let readd_sigs :=
  readd user_sig normalize_signature compile_element_wise_function
    finalize_ufunc_signature build_element_wise_ufunc_wrapper str
    of_signature.

Lemma add_returns (sig : user_sig) (d d' : dufunc) (cres : compile_result) :
  add_sig sig d = (Ok cres, d') ->
  _frozen d = false /\ _frozen d' = false /\
  length (loops d') = S (length (loops d)) /\
  length (_keepalive d') = S (length (_keepalive d)) /\
  length (libs d') = S (length (libs d)).
Proof.
  unfold add_sig, add, bindM, lift.
  destruct (normalize_signature sig) as [[argtys return_type]|e];
    [|discriminate].
  unfold _compile_for_argtys, _add_loop, bindM, get, put, raise, lift, ret.
  destruct (_frozen d) eqn:Hf; [discriminate|].
  destruct (compile_element_wise_function (overloads d) argtys return_type)
    as [[[[c a'] rt'] ov']|e]; [|discriminate].
  destruct (finalize_ufunc_signature c a' rt') as [actual|e];
    [|discriminate].
  destruct (build_element_wise_ufunc_wrapper c actual)
    as [[[nums ptr] env]|e]; [|discriminate].
  intros [= _ <-]. cbn [_frozen loops _keepalive libs].
  rewrite !length_app. cbn [length]. repeat split; lia.
Qed.

Lemma readd_returns (siglist : list signature) :
  forall d d' : dufunc,
    readd_sigs siglist d = (Ok tt, d') ->
    _frozen d' = _frozen d /\
    length (loops d') = (length (loops d) + length siglist)%nat /\
    length (_keepalive d') = (length (_keepalive d) + length siglist)%nat /\
    length (libs d') = (length (libs d) + length siglist)%nat.
Proof.
  induction siglist as [|sig siglist IH]; intros d d' H.
  - injection H as <-. cbn [length]. repeat split; lia.
  - unfold readd_sigs in H. cbn [readd] in H. unfold bindM at 1 in H.
    fold add_sig in H.
    destruct (add_sig (of_signature sig) d) as [[cres|e] d1] eqn:Ha;
      [|discriminate].
    apply add_returns in Ha as (Hf & Hf1 & Hl & Hk & Hb).
    apply IH in H as (Hf' & Hl' & Hk' & Hb').
    cbn [length]. repeat split; try lia. congruence.
Qed.

(** X26.  When [_rebuild] returns on a newly set up function, which is not
    frozen, with the states that [_reduce_states] took from a function, the
    result has the frozen flag of that function and one more call of
    [_add_loop], keep-alive entry and library for each of its registered
    signatures:
    the signatures are added again before the function is frozen. *)
Theorem rebuild_restores (d d0 d' : dufunc) :
  _frozen d0 = false ->
  rebuild (fst (_reduce_states d)) (snd (_reduce_states d)) d0 = (Ok tt, d') ->
  _frozen d' = _frozen d /\
  length (loops d')
  = (length (loops d0) + length (overloads d))%nat /\
  length (_keepalive d')
  = (length (_keepalive d0) + length (overloads d))%nat /\
  length (libs d') = (length (libs d0) + length (overloads d))%nat.
Proof.
  intros Hf0. unfold rebuild, _rebuild, _reduce_states. cbn [fst snd].
  unfold bindM at 1. fold readd_sigs.
  destruct (readd_sigs (map fst (overloads d)) d0) as [[[]|e] d1] eqn:Hr;
    [|discriminate].
  apply readd_returns in Hr as (Hf & Hl & Hk & Hb).
  rewrite length_map in Hl, Hk, Hb.
  destruct (_frozen d) eqn:Hfd.
  - unfold disable_compile, bindM, get, put, raise.
    destruct (0 <? length (overloads d1))%nat; [|discriminate].
    intros [= <-]. cbn [_frozen loops _keepalive libs]. auto.
  - unfold ret. intros [= <-]. repeat split; auto. congruence.
Qed.

End WithCollaborators.

Lemma disable_compile_freezes_witness :
  disable_compile
    {| ufunc_name := "f"; nin := 1; nout := 1; _frozen := false;
       overloads := []; loops := []; _keepalive := []; libs := [] |}
  = (Raise AssertionError,
     {| ufunc_name := "f"; nin := 1; nout := 1; _frozen := false;
        overloads := []; loops := []; _keepalive := []; libs := [] |}) /\
  exists d',
    disable_compile Scenario.frozen_float64 = (Ok tt, d') /\
    d' = Scenario.frozen_float64 /\
    disable_compile d' = (Ok tt, d') /\
    forall sig argtys return_type,
      Scenario.normalized sig = Ok (argtys, return_type) ->
      add _ Scenario.normalized Scenario.backend Scenario.finalize
        Scenario.wrapper Scenario.str sig d'
      = (Raise (RuntimeError
                  "compilation disabled for <numba._DUFunc 'f'>"), d').
Proof.
  split.
  - apply (disable_compile_freezes (list etype * option etype)
             Scenario.normalized Scenario.backend Scenario.finalize
             Scenario.wrapper Scenario.str).
    reflexivity.
  - destruct (proj2 (disable_compile_freezes (list etype * option etype)
                       Scenario.normalized Scenario.backend Scenario.finalize
                       Scenario.wrapper Scenario.str Scenario.frozen_float64))
      as (d' & Hrun & Hd' & Hagain & Hadd); [discriminate|].
    exists d'. split; [exact Hrun|]. split; [exact Hd'|].
    split; [exact Hagain|]. subst d'. exact Hadd.
Defined.

(** Compiling for a signature a second time replaces its loop: the table
    has one loop after the first call and one after the second, while each
    call adds a keep-alive entry. *)
Lemma compile_again_replaces_loop :
  let compile :=
    _compile_for_argtys Scenario.backend Scenario.finalize Scenario.wrapper
      Scenario.str [float64] (Some float64) in
  let d0 :=
    {| ufunc_name := "f"; nin := 1; nout := 1; _frozen := false;
       overloads := []; loops := []; _keepalive := []; libs := [] |} in
  ntypes (snd (compile d0)) = 1%nat /\
  ntypes (snd (compile (snd (compile d0)))) = 1%nat /\
  length (_keepalive (snd (compile (snd (compile d0))))) = 2%nat.
Proof. repeat split. Qed.

Lemma type_me_frozen_witness :
  snd (_type_me Scenario.backend Scenario.finalize Scenario.wrapper
         promotion_search Scenario.inputs_only Scenario.str_argtys Scenario.str
         [ArrayTy int32 1 "C"] [] Scenario.frozen_float64)
  = Scenario.frozen_float64.
Proof.
  apply (type_me_frozen Scenario.backend Scenario.finalize Scenario.wrapper
           promotion_search Scenario.inputs_only Scenario.str_argtys Scenario.str
           Scenario.frozen_float64 [ArrayTy int32 1 "C"] []).
  reflexivity.
Defined.

Lemma type_me_known_types_witness :
  _type_me Scenario.backend Scenario.finalize Scenario.wrapper
    promotion_search Scenario.inputs_only Scenario.str_argtys Scenario.str
    [ArrayTy int32 1 "C"] [] Scenario.frozen_float64
  = (Ok {| cs_return := ArrayTy float64 1 "C";
           cs_args := [ArrayTy int32 1 "C"] |},
     Scenario.frozen_float64).
Proof.
  apply (type_me_known_types Scenario.backend Scenario.finalize
           Scenario.wrapper promotion_search Scenario.inputs_only
           Scenario.str_argtys Scenario.str Scenario.frozen_float64
           [ArrayTy int32 1 "C"] [int32] [] 1 "C"%char
           Scenario.sig_float64 Scenario.cres_float64);
    reflexivity.
Defined.

(** Two signatures with the same input type and different return types. *)
Lemma find_ewise_function_first_match_witness :
  exists before after,
    [({| args := [int32]; return_type := int64 |}, Scenario.cres_float64);
     (Scenario.sig_float64, Scenario.cres_float64);
     ({| args := [int32]; return_type := float64 |}, Scenario.cres_float64)]
    = before
      ++ ({| args := [int32]; return_type := int64 |}, Scenario.cres_float64)
      :: after /\
    [int32] = [int32] /\
    forall s c, In (s, c) before -> args s <> [int32].
Proof.
  apply (find_ewise_function_first_match promotion_search
           {| ufunc_name := "f"; nin := 1; nout := 1; _frozen := false;
              overloads :=
                [({| args := [int32]; return_type := int64 |},
                  Scenario.cres_float64);
                 (Scenario.sig_float64, Scenario.cres_float64);
                 ({| args := [int32]; return_type := float64 |},
                  Scenario.cres_float64)];
              loops := []; _keepalive := []; libs := [] |}
           [int32] {| args := [int32]; return_type := int64 |}
           Scenario.cres_float64);
    reflexivity.
Defined.

Lemma type_me_compiles_unknown_types_witness :
  _type_me Scenario.backend Scenario.finalize Scenario.wrapper
    promotion_search Scenario.inputs_only Scenario.str_argtys Scenario.str
    [ArrayTy int32 1 "C"] []
    {| ufunc_name := "f"; nin := 1; nout := 1; _frozen := false;
       overloads := [(Scenario.sig_float64, Scenario.cres_float64)];
       loops := []; _keepalive := []; libs := [] |}
  = (Ok {| cs_return := ArrayTy float64 1 "C";
           cs_args := [ArrayTy int32 1 "C"] |},
     {| ufunc_name := "f"; nin := 1; nout := 1; _frozen := false;
        overloads := [(Scenario.sig_float64, Scenario.cres_float64);
                      ({| args := [int32]; return_type := float64 |},
                       Scenario.cres_float64)];
        loops := [([2%nat; 5%nat], 4096)];
        _keepalive := [(4096, 0%nat, 0%nat)];
        libs := [0%nat] |}).
Proof.
  apply (type_me_compiles_unknown_types Scenario.backend Scenario.finalize
           Scenario.wrapper promotion_search Scenario.inputs_only
           Scenario.str_argtys Scenario.str
           {| ufunc_name := "f"; nin := 1; nout := 1; _frozen := false;
              overloads := [(Scenario.sig_float64, Scenario.cres_float64)];
              loops := []; _keepalive := []; libs := [] |}
           [ArrayTy int32 1 "C"] [int32] 1 "C"%char
           Scenario.cres_float64 [int32] (Some float64)
           [(Scenario.sig_float64, Scenario.cres_float64);
            ({| args := [int32]; return_type := float64 |},
             Scenario.cres_float64)]
           {| args := [int32]; return_type := float64 |}
           [2%nat; 5%nat] 4096 0%nat);
    reflexivity.
Defined.

(** In the examples below a run-time argument is its own type: an array of
    an element type, or a number. *)
Lemma compile_for_args_rejects_witness :
  _compile_for_args Scenario.backend Scenario.finalize Scenario.wrapper
    argty (fun v => Ok v)
    (fun v => match v with ScalarTy t => Ok t | ArrayTy t _ _ => Ok t end)
    (fun k => k) Scenario.str
    [ArrayTy int32 1 "C"]
    [("where"%string, ScalarTy int8); ("out"%string, ArrayTy float64 1 "C");
     ("casting"%string, ScalarTy int8)]
    Scenario.frozen_float64
  = (Raise (TypeError
              "unexpected keyword arguments to ufunc: casting, where"),
     Scenario.frozen_float64).
Proof.
  apply (compile_for_args_rejects Scenario.backend Scenario.finalize
           Scenario.wrapper argty (fun v => Ok v)
           (fun v => match v with
                     | ScalarTy t => Ok t
                     | ArrayTy t _ _ => Ok t
                     end)
           (fun k => k) Scenario.str Scenario.frozen_float64 [ArrayTy int32 1 "C"]
           [("where"%string, ScalarTy int8); ("out"%string, ArrayTy float64 1 "C");
            ("casting"%string, ScalarTy int8)]).
  discriminate.
Defined.

Lemma compile_for_args_outputs_ignored_witness :
  _compile_for_args Scenario.backend Scenario.finalize Scenario.wrapper
    argty (fun v => Ok v)
    (fun v => match v with ScalarTy t => Ok t | ArrayTy t _ _ => Ok t end)
    (fun k => k) Scenario.str
    ([ArrayTy int32 1 "C"] ++ [ArrayTy float64 1 "C"]) []
    Scenario.frozen_float64
  = (argtys <~ lift (argtys_of argty (fun v => Ok v)
                       (fun v => match v with
                                 | ScalarTy t => Ok t
                                 | ArrayTy t _ _ => Ok t
                                 end)
                       [ArrayTy int32 1 "C"]) ;;
     _compile_for_argtys Scenario.backend Scenario.finalize Scenario.wrapper
       Scenario.str argtys None) Scenario.frozen_float64.
Proof.
  apply (compile_for_args_outputs_ignored Scenario.backend Scenario.finalize
           Scenario.wrapper argty (fun v => Ok v)
           (fun v => match v with
                     | ScalarTy t => Ok t
                     | ArrayTy t _ _ => Ok t
                     end)
           (fun k => k) Scenario.str Scenario.frozen_float64 [ArrayTy int32 1 "C"]
           [ArrayTy float64 1 "C"]).
  - reflexivity.
  - right. reflexivity.
Defined.

Lemma frozen_function_unchanged_witness :
  snd (_compile_for_args Scenario.backend Scenario.finalize Scenario.wrapper
         argty (fun v => Ok v)
         (fun v => match v with
                   | ScalarTy t => Ok t
                   | ArrayTy t _ _ => Ok t
                   end)
         (fun k => k) Scenario.str [ArrayTy int32 1 "C"] [] Scenario.frozen_float64)
  = Scenario.frozen_float64.
Proof.
  apply (frozen_function_unchanged (list etype * option etype)
           Scenario.normalized Scenario.backend Scenario.finalize
           Scenario.wrapper promotion_search Scenario.inputs_only
           Scenario.str_argtys argty (fun v => Ok v)
           (fun v => match v with
                     | ScalarTy t => Ok t
                     | ArrayTy t _ _ => Ok t
                     end)
           (fun k => k) Scenario.str Scenario.frozen_float64).
  reflexivity.
Defined.

Lemma rebuild_restores_witness :
  exists d',
    _rebuild _ Scenario.normalized Scenario.backend Scenario.finalize
      Scenario.wrapper Scenario.str
      (fun s => (args s, Some (return_type s)))
      true [Scenario.sig_float64]
      {| ufunc_name := "f"; nin := 1; nout := 1; _frozen := false;
         overloads := []; loops := []; _keepalive := []; libs := [] |}
    = (Ok tt, d') /\
    _frozen d' = true /\
    length (loops d') = 1%nat /\
    length (_keepalive d') = 1%nat /\
    length (libs d') = 1%nat.
Proof.
  eexists. split; [reflexivity|].
  apply (rebuild_restores _ Scenario.normalized Scenario.backend
           Scenario.finalize Scenario.wrapper Scenario.str
           (fun s => (args s, Some (return_type s)))
           Scenario.frozen_float64
           {| ufunc_name := "f"; nin := 1; nout := 1; _frozen := false;
              overloads := []; loops := []; _keepalive := []; libs := [] |});
    reflexivity.
Defined.

End RegistryFacts.
